(** * indexer-kadena: ingestion and reconciliation engine

    A shallow embedding of the TypeScript sources of the indexer
    (streaming.ts, guards.ts, the archive/gap-filler service, and the
    block and event repositories) together with the properties the
    specification states about them.

    Conventions of the embedding.
    - A JavaScript exception is a value [Throw e] of [Result]; `try/catch`
      is a [match] on it.
    - `await` is sequencing.  [Promise.all (xs.map f)] is run in list
      order, threading the state; it rejects as soon as one call throws.
    - The relational store is the record [Tables].  A Sequelize
      transaction is a working copy of [Tables]: `commit` installs the copy,
      `rollback` drops it.  [Database] keeps, next to the committed tables,
      the history of finished transactions.
    - `console.log / info / error` append a line to [console]. *)

From Stdlib Require Import ZArith String Ascii List Bool Lia.
From stdpp Require Import base decidable option list sorting countable
  strings gmap pretty.

Local Open Scope Z_scope.

(* ===================================================================== *)
(** * Part I.  The embedding                                              *)
(* ===================================================================== *)

(** ** Results of fallible calls *)

Inductive Result (A : Type) : Type :=
| Ok (a : A)
| Throw (e : string).
Arguments Ok {A} a.
Arguments Throw {A} e.

(** JavaScript truthiness of an optional string / optional number. *)
Definition truthy_str (o : option string) : bool :=
  match o with
  | Some s => negb (String.eqb s EmptyString)
  | None => false
  end.

Definition truthy_nat (o : option nat) : bool :=
  match o with
  | Some n => negb (Nat.eqb n 0)
  | None => false
  end.

(** [o || 0] on an optional number. *)
Definition or_zero (o : option Z) : Z :=
  match o with
  | Some n => if Z.eqb n 0 then 0 else n
  | None => 0
  end.

Definition nl : string := String (ascii_of_nat 10) EmptyString.

(* --------------------------------------------------------------------- *)
(** ** utils/int-uint-64                                                  *)
(* --------------------------------------------------------------------- *)

Module IntUint64.

Definition two64 : Z := 2 ^ 64.
Definition two63 : Z := 2 ^ 63.

(** [BigInt.asIntN(64, x)] and [BigInt.asUintN(64, x)]: keep the low 64
    bits and read them as a signed, respectively unsigned, number. *)
Definition asIntN64 (x : Z) : Z :=
  let m := x mod two64 in
  if m <? two63 then m else m - two64.

Definition asUintN64 (x : Z) : Z := x mod two64.

(** Modelled from the spec: utils/int-uint-64.ts is imported by
    streaming.ts but is not among the sources.  The specification
    prescribes that the unsigned 64-bit [featureFlags] is stored as a
    signed 64-bit value "via two's-complement reinterpretation" and that
    a downstream read "must perform the inverse". *)
Definition uint64ToInt64 (f : Z) : Z := asIntN64 f.

(** Modelled from the spec: the inverse reinterpretation. *)
Definition int64ToUint64 (i : Z) : Z := asUintN64 i.

End IntUint64.

(* --------------------------------------------------------------------- *)
(** ** Data model: the relational store                                   *)
(* --------------------------------------------------------------------- *)

(** Decoded JSON values are carried as their text. *)
Definition Json : Type := string.

(** models/syncStatus: the [source] column. *)
Inductive Source : Type :=
| SOURCE_S3 | SOURCE_API | SOURCE_BACKFILL | SOURCE_STREAMING.

Global Instance Source_eq_dec : EqDecision Source.
Proof. solve_decision. Defined.

Definition Source_to_nat (s : Source) : nat :=
  match s with
  | SOURCE_S3 => 0 | SOURCE_API => 1
  | SOURCE_BACKFILL => 2 | SOURCE_STREAMING => 3
  end%nat.

Definition Source_of_nat (n : nat) : option Source :=
  match n with
  | 0 => Some SOURCE_S3 | 1 => Some SOURCE_API
  | 2 => Some SOURCE_BACKFILL | 3 => Some SOURCE_STREAMING
  | _ => None
  end%nat.

Global Instance Source_countable : Countable Source.
Proof.
  apply (inj_countable Source_to_nat Source_of_nat).
  intros []; reflexivity.
Defined.

(** A row of "Blocks": the attributes [saveBlock] writes, and the id the
    table assigns. *)
Record Block : Type := mkBlock {
  b_id : Z;
  b_nonce : string;
  b_creationTime : Z;
  b_parent : string;
  b_adjacents : Json;
  b_target : string;
  b_payloadHash : string;
  b_chainId : Z;
  b_weight : string;
  b_height : Z;
  b_chainwebVersion : string;
  b_epochStart : Z;
  b_featureFlags : Z;
  b_hash : string;
  b_minerData : Json;
  b_transactionsHash : string;
  b_outputsHash : string;
  b_coinbase : Json;
  b_transactionsCount : option Z
}.

Record Transaction : Type := mkTransaction {
  t_id : Z;
  t_blockId : Z;
  t_requestkey : string
}.

Record Event : Type := mkEvent {
  e_id : Z;
  e_transactionId : Z;
  e_requestkey : string;
  e_module : string;
  e_name : string;
  e_orderIndex : Z
}.

(** The identity of a "SyncStatus" row is (network, chainId, prefix,
    source); the table is a finite map from identities to rows. *)

Record SyncStatus : Type := mkSyncStatus {
  ss_key : option string;
  ss_fromHeight : option Z;
  ss_toHeight : option Z
}.

Record SyncError : Type := mkSyncError {
  se_id : Z;
  se_network : string;
  se_chainId : Z;
  se_fromHeight : Z;
  se_toHeight : Z;
  se_source : Source
}.

Record StreamingError : Type := mkStreamingError {
  ste_hash : string;
  ste_chainId : Z
}.

Record Balance : Type := mkBalance {
  bal_id : Z;
  bal_account : string;
  bal_chainId : Z;
  bal_module : string
}.

Record Guard : Type := mkGuard {
  g_account : string;
  g_chainId : Z;
  g_module : string;
  g_keys : list string;
  g_predicate : string
}.

Record Tables : Type := mkTables {
  Blocks : list Block;
  Transactions : list Transaction;
  Events : list Event;
  SyncStatuses : gmap (string * Z * string * Source) SyncStatus;
  SyncErrors : list SyncError;
  StreamingErrors : list StreamingError;
  Balances : list Balance;
  Guards : list Guard
}.

Definition with_Blocks (bs : list Block) (t : Tables) : Tables :=
  mkTables bs (Transactions t) (Events t) (SyncStatuses t) (SyncErrors t)
           (StreamingErrors t) (Balances t) (Guards t).

Definition with_SyncStatuses (m : gmap (string * Z * string * Source) SyncStatus) (t : Tables) : Tables :=
  mkTables (Blocks t) (Transactions t) (Events t) m (SyncErrors t)
           (StreamingErrors t) (Balances t) (Guards t).

Definition with_SyncErrors (es : list SyncError) (t : Tables) : Tables :=
  mkTables (Blocks t) (Transactions t) (Events t) (SyncStatuses t) es
           (StreamingErrors t) (Balances t) (Guards t).

Definition with_StreamingErrors (es : list StreamingError) (t : Tables) : Tables :=
  mkTables (Blocks t) (Transactions t) (Events t) (SyncStatuses t) (SyncErrors t)
           es (Balances t) (Guards t).

Definition with_Guards (gs : list Guard) (t : Tables) : Tables :=
  mkTables (Blocks t) (Transactions t) (Events t) (SyncStatuses t) (SyncErrors t)
           (StreamingErrors t) (Balances t) gs.

(** How a Sequelize transaction ended. *)
Inductive TxEnd : Type := Committed | RolledBack.

Global Instance TxEnd_eq_dec : EqDecision TxEnd.
Proof. solve_decision. Defined.

Record Database : Type := mkDatabase {
  committed : Tables;
  txHistory : list TxEnd
}.

(** [tx.commit()]: the working copy becomes the committed state. *)
Definition commit (tx : Tables) (d : Database) : Database :=
  mkDatabase tx (txHistory d ++ [Committed]).

(** [tx.rollback()]: the working copy is dropped. *)
Definition rollback (d : Database) : Database :=
  mkDatabase (committed d) (txHistory d ++ [RolledBack]).

(** A statement run outside any transaction (autocommit). *)
Definition autocommit (f : Tables -> Tables) (d : Database) : Database :=
  mkDatabase (f (committed d)) (txHistory d).

(** jobs/publisher-job: the record published for a materialised block. *)
Record DispatchInfo : Type := mkDispatchInfo {
  d_hash : string;
  d_chainId : string;
  d_height : Z;
  d_requestKeys : list string;
  d_qualifiedEventNames : list string
}.

(** The process: database, Publication Bus buffer, console. *)
Record World : Type := mkWorld {
  db : Database;
  bus : list DispatchInfo;
  console : list string
}.

Definition with_db (d : Database) (w : World) : World :=
  mkWorld d (bus w) (console w).

Definition log (line : string) (w : World) : World :=
  mkWorld (db w) (bus w) (console w ++ [line]).

(** Modelled from the spec: jobs/publisher-job.ts ([addPublishEvents]) is
    imported by the archive service but is not among the sources.  The
    specification gives the Bus the operation [append(DispatchInfo)] on an
    unbounded buffer; the call site passes the records only (no transaction
    handle), so the buffer is process state, outside the database. *)
Definition addPublishEvents (events : list DispatchInfo) (w : World) : World :=
  mkWorld (db w) (bus w ++ events) (console w).

(* --------------------------------------------------------------------- *)
(** ** kadena-server/repository: block and event repositories             *)
(* --------------------------------------------------------------------- *)

Module BlockDbRepository.

(** [BlockModel.findOne({ where: { hash: blockHash } })]. *)
Definition findOne_by_hash (blockHash : string) (t : Tables) : option Block :=
  List.find (fun b => String.eqb (b_hash b) blockHash) (Blocks t).

(** [return block?.transactionsCount || 0] *)
Definition getTotalCountOfBlockEvents (t : Tables) (blockHash : string) : Z :=
  match findOne_by_hash blockHash t with
  | Some block => or_zero (b_transactionsCount block)
  | None => 0
  end.

End BlockDbRepository.

Inductive SqlValue : Type :=
| SqlNum (n : Z)
| SqlStr (s : string).

(** What [getPaginationParams] returns.  The first revision of the event
    repository reads [limit] and [order] only. *)
Record PaginationParams : Type := mkPaginationParams {
  pp_limit : Z;
  pp_order : string;
  pp_after : option string;
  pp_before : option string
}.

Record GetBlockEventsParams : Type := mkGetBlockEventsParams {
  p_hash : string;
  p_after : option string;
  p_before : option string;
  p_first : option Z;
  p_last : option Z
}.

(** The pieces of the statement handed to [rootPgPool.query]: the text
    spliced in after `WHERE b.hash = $2`, the direction spliced in after
    `ORDER BY e.id`, and the positional parameters ($1 is the limit, $2 the
    block hash). *)
Record BlockEventsQuery : Type := mkBlockEventsQuery {
  conditions : string;
  order : string;
  queryParams : list SqlValue
}.

(** [$n] of a parameter list. *)
Definition placeholder (n : nat) (ps : list SqlValue) : option SqlValue :=
  match n with
  | O => None
  | S i => nth_error ps i
  end.

Definition cursorValue (o : option string) : SqlValue :=
  SqlStr (default EmptyString o).

Module EventDbRepository.
Section WithPagination.

(** kadena-server/repository/pagination is not among the sources. *)
Variable getPaginationParams :
  option string -> option string -> option Z -> option Z -> PaginationParams.

(** event-db-repository.ts, lines 45-100. *)
Definition getBlockEvents (params : GetBlockEventsParams) : BlockEventsQuery :=
  let hash := p_hash params in
  let after := p_after params in
  let before := p_before params in
  let pp := getPaginationParams after before (p_first params) (p_last params) in
  let queryParams := [SqlNum (pp_limit pp); SqlStr hash] in
  let conditions := EmptyString in
  let '(queryParams, conditions) :=
    if truthy_str before
    then (queryParams ++ [cursorValue before],
          conditions +:+ nl +:+ "AND e.id < $3")
    else (queryParams, conditions) in
  let '(queryParams, conditions) :=
    if truthy_str after
    then (queryParams ++ [cursorValue after],
          conditions +:+ nl +:+ "AND e.id > $3")
    else (queryParams, conditions) in
  mkBlockEventsQuery conditions (pp_order pp) queryParams.

(** The rows of
      "Blocks" b JOIN "Transactions" t ON b.id = t."blockId"
                 JOIN "Events" e ON t.id = e."transactionId"
      WHERE b.hash = $1. *)
Definition blockEventRows (t : Tables) (hash : string)
  : list (Block * Transaction * Event) :=
  b ← List.filter (fun b => String.eqb (b_hash b) hash) (Blocks t);
  tx ← List.filter (fun tx => Z.eqb (t_blockId tx) (b_id b)) (Transactions t);
  e ← List.filter (fun e => Z.eqb (e_transactionId e) (t_id tx)) (Events t);
  [(b, tx, e)].

(** [SELECT COUNT( * ) ...], read back with [parseInt]. *)
Definition getTotalCountOfBlockEvents (t : Tables) (hash : string) : Z :=
  Z.of_nat (length (blockEventRows t hash)).

End WithPagination.
End EventDbRepository.

(** The second revision of event-db-repository.ts (lines 372-959 of the
    source file): the cursors are first decoded by [getPaginationParams]. *)
Module EventDbRepository2.
Section WithPagination.

Variable getPaginationParams :
  option string -> option string -> option Z -> option Z -> PaginationParams.

(** event-db-repository.ts, lines 462-514. *)
Definition getBlockEvents (params : GetBlockEventsParams) : BlockEventsQuery :=
  let hash := p_hash params in
  let afterEncoded := p_after params in
  let beforeEncoded := p_before params in
  let pp := getPaginationParams afterEncoded beforeEncoded
                                (p_first params) (p_last params) in
  let after := pp_after pp in
  let before := pp_before pp in
  let queryParams := [SqlNum (pp_limit pp); SqlStr hash] in
  let conditions := EmptyString in
  let '(queryParams, conditions) :=
    if truthy_str before
    then (queryParams ++ [cursorValue before],
          conditions +:+ nl +:+ "AND e.id > $3")
    else (queryParams, conditions) in
  let '(queryParams, conditions) :=
    if truthy_str after
    then (queryParams ++ [cursorValue after],
          conditions +:+ nl +:+ "AND e.id < $3")
    else (queryParams, conditions) in
  mkBlockEventsQuery conditions (pp_order pp) queryParams.

(** Lines 526-539: the same count as in the first revision. *)
Definition getTotalCountOfBlockEvents (t : Tables) (hash : string) : Z :=
  EventDbRepository.getTotalCountOfBlockEvents t hash.

End WithPagination.
End EventDbRepository2.

(* --------------------------------------------------------------------- *)
(** ** services/syncStatusService and the archive run (processKeys)       *)
(* --------------------------------------------------------------------- *)

Module Archive.

(** Modelled from the spec: services/syncStatusService.ts is not among the
    sources.  [findLastCursor(chainId, network, prefix, source)] returns the
    row of that identity, if any. *)
Definition findWithPrefix (chainId : Z) (network prefix : string) (source : Source)
  (t : Tables) : option SyncStatus :=
  SyncStatuses t !! (network, chainId, prefix, source).

(** Modelled from the spec: [saveCursor(SyncStatus, tx)] is an upsert within
    the transaction of the caller.  The caller passes
    [{ chainId, network, key, prefix, source }]. *)
Definition save (chainId : Z) (network : string) (key : option string)
  (prefix : string) (source : Source) (tx : Tables) : Tables :=
  with_SyncStatuses
    (<[(network, chainId, prefix, source) := mkSyncStatus key None None]>
       (SyncStatuses tx)) tx.

(** The variables of the `while` loop, with the transaction and the
    process state the body works on. *)
Record LoopVars : Type := mkLoopVars {
  lv_tx : Tables;
  lv_world : World;
  lv_startAfter : option string;
  lv_isFinished : bool;
  lv_iterationCount : nat;
  lv_totalKeysProcessed : nat
}.

(** How the loop is left: by its condition, or by an exception, with the
    variables as they were when it was thrown. *)
Inductive LoopExit : Type :=
| Finished (v : LoopVars)
| Thrown (e : string) (v : LoopVars).

Definition exitVars (ex : LoopExit) : LoopVars :=
  match ex with
  | Finished v => v
  | Thrown _ v => v
  end.

Section ProcessKeys.

(** services/s3Service: [listS3Objects(prefix, maxKeys, startAfter)]. *)
Variable listS3Objects : string -> nat -> option string -> Result (list string).

(** The [ProcessKeyFunction] handed to [processKeys]; it works on the
    transaction it is given. *)
Variable processKey :
  string -> string -> Tables -> Result (option DispatchInfo * Tables).

(** The other parameters of [processKeys].  [maxKeys] is the value after
    its default (20) has been applied; [maxIterations] may be absent. *)
Variables (network : string) (chainId : Z) (prefix : string).
Variables (maxKeys : nat) (maxIterations : option nat).

(** [Promise.all(keys.map(async key => processKey(network, key, tx)))]:
    the calls share the transaction; the first one to throw rejects the
    whole page. *)
Fixpoint processAll (keys : list string) (tx : Tables)
  : Result (list (option DispatchInfo) * Tables) :=
  match keys with
  | [] => Ok ([], tx)
  | key :: rest =>
      match processKey network key tx with
      | Throw e => Throw e
      | Ok (r, tx1) =>
          match processAll rest tx1 with
          | Throw e => Throw e
          | Ok (rs, tx2) => Ok (r :: rs, tx2)
          end
      end
  end.

(** [!isFinished && (!maxIterations || iterationCount < maxIterations)] *)
Definition loopCondition (v : LoopVars) : bool :=
  negb (lv_isFinished v) &&
  (negb (truthy_nat maxIterations) ||
   Nat.ltb (lv_iterationCount v) (default 0%nat maxIterations)).

(** One pass through the body of the loop (lines 83-96). *)
Definition loopBody (v : LoopVars) : Result LoopVars :=
  match listS3Objects prefix maxKeys (lv_startAfter v) with
  | Throw e => Throw e
  | Ok keys =>
      if Nat.ltb 0 (length keys) then
        match processAll keys (lv_tx v) with
        | Throw e => Throw e
        | Ok (res, tx') =>
            Ok (mkLoopVars tx'
                  (addPublishEvents (omap id res) (lv_world v))
                  (last keys)
                  (lv_isFinished v)
                  (S (lv_iterationCount v))
                  (lv_totalKeysProcessed v + length keys)%nat)
        end
      else
        Ok (mkLoopVars (lv_tx v) (lv_world v) (lv_startAfter v) true
                       (lv_iterationCount v) (lv_totalKeysProcessed v))
  end.

(** The loop; [fuel] bounds the number of times the condition is tested. *)
Fixpoint while_loop (fuel : nat) (v : LoopVars) : option LoopExit :=
  match fuel with
  | O => None
  | S fuel' =>
      if loopCondition v then
        match loopBody v with
        | Throw e => Some (Thrown e v)
        | Ok v' => while_loop fuel' v'
        end
      else Some (Finished v)
  end.

Definition initialVars (w : World) : LoopVars :=
  let tx := committed (db w) in
  let lastSync := findWithPrefix chainId network prefix SOURCE_S3 (committed (db w)) in
  let startAfter := match lastSync with
                    | Some row => ss_key row
                    | None => None
                    end in
  mkLoopVars tx w startAfter false 0 0.

(** [processKeys(network, chainId, prefix, processKey, maxKeys,
    maxIterations)]: the number it returns and the state it leaves. *)
Definition processKeys (fuel : nat) (w : World) : option (nat * World) :=
  match while_loop fuel (initialVars w) with
  | None => None
  | Some (Finished v) =>
      let tx := save chainId network (lv_startAfter v) prefix SOURCE_S3 (lv_tx v) in
      let w1 := lv_world v in
      Some (lv_totalKeysProcessed v, with_db (commit tx (db w1)) w1)
  | Some (Thrown error v) =>
      let w1 := lv_world v in
      Some (lv_totalKeysProcessed v,
            log ("Error processing block headers from storage: " +:+ error)
                (with_db (rollback (db w1)) w1))
  end.

(** *** The history of a run

    Not part of the source: the pages (keys listed, results of
    [processKey]) of the passes the loop completed, in order.  The
    statements below speak about a run through it. *)
Definition pageOf (v : LoopVars)
  : list (list string * list (option DispatchInfo)) :=
  match listS3Objects prefix maxKeys (lv_startAfter v) with
  | Ok keys =>
      if Nat.ltb 0 (length keys) then
        match processAll keys (lv_tx v) with
        | Ok (res, _) => [(keys, res)]
        | Throw _ => []
        end
      else []
  | Throw _ => []
  end.

Fixpoint history (fuel : nat) (v : LoopVars)
  : list (list string * list (option DispatchInfo)) :=
  match fuel with
  | O => []
  | S fuel' =>
      if loopCondition v then
        match loopBody v with
        | Throw _ => []
        | Ok v' => pageOf v ++ history fuel' v'
        end
      else []
  end.

(** The DispatchInfo records the pages of a history produced. *)
Definition dispatched (h : list (list string * list (option DispatchInfo)))
  : list DispatchInfo :=
  h ≫= (fun page => omap id (snd page)).

(** The cursor after a history: the last key of its last page, or the
    cursor the run started from. *)
Definition cursorAfter (startAfter : option string)
  (h : list (list string * list (option DispatchInfo))) : option string :=
  match last h with
  | Some page => last (fst page)
  | None => startAfter
  end.

End ProcessKeys.

(** The number of keys in the pages of a history. *)
Definition keysIn (h : list (list string * list (option DispatchInfo))) : nat :=
  sum_list (map (fun page => length (fst page)) h).

(** Lexicographic order on keys. *)
Definition key_le (a b : string) : Prop := String.leb a b = true.

(** The reading of invariant I3 on a run: a committed transaction appends
    exactly one DispatchInfo to the Bus, a rolled-back one appends none. *)
Definition one_dispatch_per_commit (run : World -> option (nat * World)) : Prop :=
  forall w n w', run w = Some (n, w') ->
    (last (txHistory (db w')) = Some Committed ->
       length (bus w') = S (length (bus w))) /\
    (last (txHistory (db w')) = Some RolledBack -> bus w' = bus w).

(** Modelled from the spec: the object store,
    [list(prefix, maxKeys, startAfter) -> [key]], lexicographically sorted:
    the first [maxKeys] keys of the bucket that carry the prefix and come
    after [startAfter].  The bucket is kept in key order. *)
Definition s3List (bucket : list string) (prefix : string) (maxKeys : nat)
  (startAfter : option string) : Result (list string) :=
  Ok (take maxKeys
        (List.filter
           (fun k => String.prefix prefix k &&
                     match startAfter with
                     | Some s => String.ltb s k
                     | None => true
                     end)
           bucket)).

End Archive.

(* --------------------------------------------------------------------- *)
(** ** services/sync/streaming.ts                                         *)
(* --------------------------------------------------------------------- *)

Module Streaming.

(** The header of a streamed block. *)
Record Header : Type := mkHeader {
  h_nonce : string;
  h_creationTime : Z;
  h_parent : string;
  h_adjacents : Json;
  h_target : string;
  h_payloadHash : string;
  h_chainId : Z;
  h_weight : string;
  h_height : Z;
  h_chainwebVersion : string;
  h_epochStart : Z;
  h_featureFlags : Z;
  h_hash : string
}.

(** [payloadWithOutputs] as it arrives (base64 fields) ... *)
Record RawPayload : Type := mkRawPayload {
  rp_transactions : list (string * string);
  rp_minerData : string;
  rp_transactionsHash : string;
  rp_outputsHash : string;
  rp_payloadHash : string;
  rp_coinbase : string
}.

(** ... and as [processPayload] returns it. *)
Record PayloadData : Type := mkPayloadData {
  pd_transactions : list (Json * Json);
  pd_minerData : Json;
  pd_transactionsHash : string;
  pd_outputsHash : string;
  pd_payloadHash : string;
  pd_coinbase : Json
}.

Record RawBlock : Type := mkRawBlock {
  rb_header : Header;
  rb_payloadWithOutputs : RawPayload
}.

(** The closure state of [startStreaming]: the process and the set of
    hashes already received. *)
Record StreamState : Type := mkStreamState {
  st_world : World;
  blocksAlreadyReceived : gset string
}.

(** What the event loop delivers to [startStreaming]: a `BlockHeader`
    message, a connection error, or the firing of the ten-minute timer. *)
Inductive StreamEvent : Type :=
| BlockHeader (data : string)
| ConnectionError (error : string)
| ClearTimer.

(** [1000 * 60 * 10] and [1000 * 60 * 60], in milliseconds. *)
Definition CLEAR_INTERVAL_MS : Z := 1000 * 60 * 10.
Definition GUARDS_INTERVAL_MS : Z := 1000 * 60 * 60.

(** [Array.from(new Set(xs))]: first occurrences, in order. *)
Fixpoint uniqueFrom (seen : list string) (xs : list string) : list string :=
  match xs with
  | [] => []
  | x :: rest =>
      if bool_decide (x ∈ seen) then uniqueFrom seen rest
      else x :: uniqueFrom (x :: seen) rest
  end.

Definition unique (xs : list string) : list string := uniqueFrom [] xs.

(** [.filter(Boolean)] on strings. *)
Definition filterBoolean (xs : list string) : list string :=
  List.filter (fun x => negb (String.eqb x EmptyString)) xs.

(** Modelled from the spec: models/block.ts is not among the sources.
    "Blocks" has a unique constraint on [hash]; [Block.create] inserts the
    row in the transaction and returns it with its id, or throws. *)
Definition nextBlockId (bs : list Block) : Z :=
  1 + foldr Z.max 0 (map b_id bs).

Definition Block_create (blockAttribute : Z -> Block) (tx : Tables)
  : Result (Block * Tables) :=
  let hash := b_hash (blockAttribute 0) in
  if existsb (fun b => String.eqb (b_hash b) hash) (Blocks tx)
  then Throw "SequelizeUniqueConstraintError: hash must be unique"
  else
    let createdBlock := blockAttribute (nextBlockId (Blocks tx)) in
    Ok (createdBlock, with_Blocks (Blocks tx ++ [createdBlock]) tx).

(** Modelled from the spec: models/streaming-error.ts is not among the
    sources; [StreamingError.create] inserts one row, outside any
    transaction. *)
Definition StreamingError_create (hash : string) (chainId : Z) (w : World) : World :=
  with_db
    (autocommit
       (fun t => with_StreamingErrors
                   (StreamingErrors t ++ [mkStreamingError hash chainId]) t)
       (db w)) w.

(** The rows of "Blocks" carrying a given hash. *)
Definition rowsWithHash (hash : string) (t : Tables) : list Block :=
  List.filter (fun b => String.eqb (b_hash b) hash) (Blocks t).

Section StartStreaming.

(** [JSON.parse(event.data)] *)
Variable JSON_parse : string -> Result RawBlock.

(** utils/helpers: [getDecoded], base64 text to decoded JSON. *)
Variable getDecoded : string -> Result Json.

(** ./payload: [processPayloadKey(createdBlock, payloadData, tx)] writes
    the transactions, events and transfers of the block and returns the
    events it created. *)
Variable processPayloadKey :
  Block -> PayloadData -> Tables -> Result (list Event * Tables).

(** [transactions.forEach(...)] of [processPayload]. *)
Fixpoint decodeTransactions (txs : list (string * string))
  : Result (list (Json * Json)) :=
  match txs with
  | [] => Ok []
  | (cmd, out) :: rest =>
      match getDecoded cmd with
      | Throw e => Throw e
      | Ok cmd' =>
          match getDecoded out with
          | Throw e => Throw e
          | Ok out' =>
              match decodeTransactions rest with
              | Throw e => Throw e
              | Ok rest' => Ok ((cmd', out') :: rest')
              end
          end
      end
  end.

Definition processPayload (payload : RawPayload) : Result PayloadData :=
  match decodeTransactions (rp_transactions payload) with
  | Throw e => Throw e
  | Ok transactions =>
      match getDecoded (rp_minerData payload) with
      | Throw e => Throw e
      | Ok minerData =>
          match getDecoded (rp_coinbase payload) with
          | Throw e => Throw e
          | Ok coinbase =>
              Ok (mkPayloadData transactions minerData
                    (rp_transactionsHash payload) (rp_outputsHash payload)
                    (rp_payloadHash payload) coinbase)
          end
      end
  end.

(** The object literal [blockAttribute] of [saveBlock], awaiting its id. *)
Definition blockAttribute (headerData : Header) (payloadData : PayloadData)
  (id : Z) : Block :=
  mkBlock id
    (h_nonce headerData)
    (h_creationTime headerData)
    (h_parent headerData)
    (h_adjacents headerData)
    (h_target headerData)
    (h_payloadHash headerData)
    (h_chainId headerData)
    (h_weight headerData)
    (h_height headerData)
    (h_chainwebVersion headerData)
    (h_epochStart headerData)
    (IntUint64.uint64ToInt64 (h_featureFlags headerData))
    (h_hash headerData)
    (pd_minerData payloadData)
    (pd_transactionsHash payloadData)
    (pd_outputsHash payloadData)
    (pd_coinbase payloadData)
    (Some (Z.of_nat (length (pd_transactions payloadData)))).

(** The `try` block of [saveBlock], inside the transaction. *)
Definition saveBlock_try (headerData : Header) (payloadData : PayloadData)
  (tx : Tables) : Result (DispatchInfo * Tables) :=
  match Block_create (blockAttribute headerData payloadData) tx with
  | Throw e => Throw e
  | Ok (createdBlock, tx1) =>
      match processPayloadKey createdBlock payloadData tx1 with
      | Throw e => Throw e
      | Ok (eventsCreated, tx2) =>
          let uniqueRequestKeys :=
            unique (filterBoolean (map e_requestkey eventsCreated)) in
          let uniqueQualifiedEventNames :=
            unique (filterBoolean
                      (map (fun t => e_module t +:+ "." +:+ e_name t)
                           eventsCreated)) in
          Ok (mkDispatchInfo (b_hash createdBlock)
                             (pretty (b_chainId createdBlock))
                             (b_height createdBlock)
                             uniqueRequestKeys
                             uniqueQualifiedEventNames,
              tx2)
      end
  end.

(** [saveBlock(parsedData)]: one transaction, committed with the
    DispatchInfo returned, or rolled back with [null] returned. *)
Definition saveBlock (headerData : Header) (payloadData : PayloadData)
  (w : World) : option DispatchInfo * World :=
  let tx := committed (db w) in
  match saveBlock_try headerData payloadData tx with
  | Ok (info, tx') => (Some info, with_db (commit tx' (db w)) w)
  | Throw error =>
      (None,
       log ("Error saving block to the database: " +:+ error)
           (with_db (rollback (db w)) w))
  end.

(** The `BlockHeader` listener (lines 25-44). *)
Definition onBlockHeader (data : string) (s : StreamState) : StreamState :=
  match JSON_parse data with
  | Throw error => mkStreamState (log error (st_world s)) (blocksAlreadyReceived s)
  | Ok block =>
      match processPayload (rb_payloadWithOutputs block) with
      | Throw error =>
          mkStreamState (log error (st_world s)) (blocksAlreadyReceived s)
      | Ok payload =>
          let hash := h_hash (rb_header block) in
          if bool_decide (hash ∈ blocksAlreadyReceived s) then s
          else
            let received := {[hash]} ∪ blocksAlreadyReceived s in
            match saveBlock (rb_header block) payload (st_world s) with
            | (None, w1) =>
                mkStreamState
                  (StreamingError_create hash (h_chainId (rb_header block)) w1)
                  received
            | (Some _, w1) => mkStreamState w1 received
            end
      end
  end.

(** One turn of the event loop. *)
Definition handle (ev : StreamEvent) (s : StreamState) : StreamState :=
  match ev with
  | BlockHeader data => onBlockHeader data s
  | ConnectionError error =>
      mkStreamState (log ("Connection error: " +:+ error) (st_world s))
                    (blocksAlreadyReceived s)
  | ClearTimer =>
      mkStreamState (log "Clearing blocks already received." (st_world s)) ∅
  end.

(** The stream: events are handled in the order they are delivered. *)
Definition runStream (evs : list StreamEvent) (s : StreamState) : StreamState :=
  fold_left (fun s ev => handle ev s) evs s.

(** [startStreaming]: the state the listeners start from. *)
Definition startStreaming (w : World) : StreamState :=
  mkStreamState (log "Starting streaming..." w) ∅.

End StartStreaming.

End Streaming.

(* --------------------------------------------------------------------- *)
(** ** The sweep over recorded errors (startRetryErrors)                  *)
(* --------------------------------------------------------------------- *)

Module RetryErrors.

(** Modelled from the spec: services/syncErrorService.ts is not among the
    sources.  [getErrors(network, source)] reads the rows of that network
    and source. *)
Definition getErrors (network : string) (source : Source) (t : Tables)
  : list SyncError :=
  List.filter
    (fun e => String.eqb (se_network e) network &&
              bool_decide (se_source e = source))
    (SyncErrors t).

(** Modelled from the spec: [delete(id)] removes the row of that id
    ("the error row is deleted"). *)
Definition delete (id : Z) (t : Tables) : Tables :=
  with_SyncErrors
    (List.filter (fun e => negb (Z.eqb (se_id e) id)) (SyncErrors t)) t.

Section StartRetryErrors.

(** ./sync/header: [fetchHeadersWithRetry(network, chainId, fromHeight,
    toHeight)]: the database as the call leaves it, and the exception it
    throws, if any. *)
Variable fetchHeadersWithRetry :
  string -> Z -> Z -> Z -> Database -> Database * option string.

Definition retryOne (error : SyncError) (d : Database) : Database * option string :=
  fetchHeadersWithRetry (se_network error) (se_chainId error)
                        (se_fromHeight error) (se_toHeight error) d.

(** The `for (const error of errors)` loop (lines 282-295). *)
Fixpoint retryEach (errors : list SyncError) (w : World) : World :=
  match errors with
  | [] => w
  | error :: rest =>
      match retryOne error (db w) with
      | (d1, None) =>
          retryEach rest (with_db (autocommit (delete (se_id error)) d1) w)
      | (d1, Some err) =>
          retryEach rest
            (log "Moving to next error..."
               (log ("Error during error retrying: " +:+ err) (with_db d1 w)))
      end
  end.

Definition startRetryErrors (network : string) (w : World) : World :=
  let w := log "Starting retrying failed blocks..." w in
  let errors := getErrors network SOURCE_API (committed (db w)) in
  retryEach errors w.

(** Not part of the source: for each row of the sweep, in order, whether
    its retried fetch succeeded. *)
Fixpoint retryOutcomes (errors : list SyncError) (d : Database)
  : list (SyncError * bool) :=
  match errors with
  | [] => []
  | error :: rest =>
      match retryOne error d with
      | (d1, None) =>
          (error, true) :: retryOutcomes rest (autocommit (delete (se_id error)) d1)
      | (d1, Some _) => (error, false) :: retryOutcomes rest d1
      end
  end.

End StartRetryErrors.

(** The ids of the rows whose retry succeeded. *)
Definition succeededIds (outcomes : list (SyncError * bool)) : list Z :=
  map (fun o => se_id (fst o)) (List.filter snd outcomes).

End RetryErrors.

(* --------------------------------------------------------------------- *)
(** ** services/sync/guards.ts (backfillGuards)                           *)
(* --------------------------------------------------------------------- *)

Module GuardsBackfill.

(** [const CONCURRENCY_LIMIT = 50; const limitFetch = pLimit(CONCURRENCY_LIMIT)].
    The limiter bounds how many fetches are in flight; it does not change
    what they return, and the embedding runs them one after the other. *)
Definition CONCURRENCY_LIMIT : nat := 50.

(** [const limit = 1000] *)
Definition limit : nat := 1000.

Definition id_le (a b : Balance) : Prop := bal_id a <= bal_id b.

Global Instance id_le_dec : RelDecision id_le.
Proof. intros a b. unfold id_le. apply _. Defined.

(** [SELECT b.id, b.account, b."chainId", b.module FROM "Balances" b
     WHERE b.id > $2 ORDER BY b.id LIMIT $1] *)
Definition selectBalances (limit : nat) (currentId : Z) (balances : list Balance)
  : list Balance :=
  take limit
    (merge_sort id_le (filter (fun b => currentId < bal_id b) balances)).

(** How [backfillGuards] ends: it returns, or the promise it returned is
    rejected (an exception outside its `try`). *)
Inductive GuardsExit : Type :=
| Returned (w : World)
| Rejected (e : string) (w : World).

Definition exitWorld (ex : GuardsExit) : World :=
  match ex with
  | Returned w => w
  | Rejected _ w => w
  end.

Section BackfillGuards.

(** ./payload: [getGuardsFromBalances], the query to the node. *)
Variable getGuardsFromBalances : list Balance -> Result (list Guard).

(** The verdict of the database on a bulk insert into "Guards" within a
    transaction: [None] when it is accepted, the error otherwise
    (models/guard.ts is not among the sources). *)
Variable bulkCreate_error : list Guard -> Tables -> option string.

(** [Guard.bulkCreate(guards, { transaction: tx })] *)
Definition Guard_bulkCreate (guards : list Guard) (tx : Tables) : Result Tables :=
  match bulkCreate_error guards tx with
  | Some e => Throw e
  | None => Ok (with_Guards (Guards tx ++ guards) tx)
  end.

(** [(await Promise.all(rows.map(row => limitFetch(() =>
       getGuardsFromBalances([row]))))).flat()] *)
Fixpoint fetchGuards (rows : list Balance) : Result (list Guard) :=
  match rows with
  | [] => Ok []
  | row :: rest =>
      match getGuardsFromBalances [row] with
      | Throw e => Throw e
      | Ok guards =>
          match fetchGuards rest with
          | Throw e => Throw e
          | Ok more => Ok (guards ++ more)
          end
      end
  end.

(** The `while (true)` loop (lines 158-210 of the source file); [fuel]
    bounds the number of batches. *)
Fixpoint guardsLoop (fuel : nat) (currentId : Z) (w : World) : option GuardsExit :=
  match fuel with
  | O => None
  | S fuel' =>
      let w := log ("[INFO][DB][METRIC] Processing guards batch: " +:+
                    pretty currentId +:+ "-" +:+
                    pretty (currentId + Z.of_nat limit)) w in
      let rows := selectBalances limit currentId (Balances (committed (db w))) in
      if Nat.eqb (length rows) 0 then
        Some (Returned
                (log "[INFO][DB][DATA_MISSING] No more balance rows to process." w))
      else
        match fetchGuards rows with
        | Throw e => Some (Rejected e w)
        | Ok guards =>
            let tx := committed (db w) in
            match Guard_bulkCreate guards tx with
            | Ok tx' =>
                let w := with_db (commit tx' (db w)) w in
                let w := log ("[INFO][DB][BIZ_FLOW] Row at " +:+ pretty currentId +:+
                              " id processed successfully.") w in
                let currentId := default currentId (bal_id <$> last rows) in
                guardsLoop fuel' currentId w
            | Throw batchError =>
                let w := log ("Error processing at id " +:+ pretty currentId +:+
                              ": " +:+ batchError) w in
                let w := with_db (rollback (db w)) w in
                let w := log ("[INFO][DB][BIZ_FLOW] Transaction for id at " +:+
                              pretty currentId +:+ " rolled back.") w in
                Some (Returned w)
            end
        end
  end.

(** [DELETE FROM "Guards"; ALTER SEQUENCE "Guards_id_seq" RESTART WITH 1;] *)
Definition deleteGuards (t : Tables) : Tables := with_Guards [] t.

Definition backfillGuards (fuel : nat) (w : World) : option GuardsExit :=
  let w := log "[INFO][WORKER][BIZ_FLOW] Starting guards backfill ..." w in
  let w := with_db (autocommit deleteGuards (db w)) w in
  match guardsLoop fuel 0 w with
  | Some (Returned w) =>
      Some (Returned
              (log "[INFO][WORKER][BIZ_FLOW] Guards backfilled successfully." w))
  | other => other
  end.

(** Not part of the source: the guards the node returns for a batch
    (none when a fetch of the batch throws). *)
Definition guardsOf (rows : list Balance) : list Guard :=
  match fetchGuards rows with
  | Ok guards => guards
  | Throw _ => []
  end.

(** Not part of the source: how the loop ended after [k] committed batches
    of [bs]: all batches done, or batch [k] failed in its fetch (the
    promise is rejected) or in its insert (rolled back, loop left). *)
Definition endedAfter (k : nat) (bs : list (list Balance)) (before : list TxEnd)
  (ex : GuardsExit) : Prop :=
  match ex with
  | Rejected e w' =>
      exists rows,
        bs !! k = Some rows /\ fetchGuards rows = Throw e /\
        txHistory (db w') = before ++ replicate k Committed
  | Returned w' =>
      (k = length bs /\
       txHistory (db w') = before ++ replicate k Committed) \/
      (exists rows guards,
          bs !! k = Some rows /\ fetchGuards rows = Ok guards /\
          txHistory (db w') = before ++ replicate k Committed ++ [RolledBack])
  end.

End BackfillGuards.

(** Not part of the source: the batches the loop selects from a table of
    balances, starting after [currentId], as long as no batch fails. *)
Fixpoint batches (fuel : nat) (currentId : Z) (balances : list Balance)
  : list (list Balance) :=
  match fuel with
  | O => []
  | S fuel' =>
      let rows := selectBalances limit currentId balances in
      match last rows with
      | None => []
      | Some row => rows :: batches fuel' (bal_id row) balances
      end
  end.

End GuardsBackfill.

(* --------------------------------------------------------------------- *)
(** ** Further code of the same files                                     *)
(* --------------------------------------------------------------------- *)

(** The block repository (block-db-repository.ts), the methods that
    read "Blocks" directly. *)
Module BlockRepository.

(** [getBlockByHash]: the row, or `throw new Error('Block not found.')`.
    The output mapping ([blockValidator.mapFromSequelize]) is not among
    the sources; the row is returned as read. *)
Definition getBlockByHash (t : Tables) (hash : string) : Result Block :=
  match BlockDbRepository.findOne_by_hash hash t with
  | Some block => Ok block
  | None => Throw "Block not found."
  end.

Section WithValidator.

(** [blockValidator.validate] parses a raw row into the output type and
    may reject it; the validator is not among the sources. *)
Context {BlockOutput : Type}.
Variable validate : Block -> Result BlockOutput.

(** The reducer of [getBlockByHashes]:
    [(acum, row) => ({ ...acum, [row.hash]: blockValidator.validate(row) })];
    an exception of the validator ends the reduction. *)
Definition blockMapStep (acum : Result (gmap string BlockOutput)) (row : Block)
  : Result (gmap string BlockOutput) :=
  match acum with
  | Ok m =>
      match validate row with
      | Ok o => Ok (<[b_hash row := o]> m)
      | Throw e => Throw e
      end
  | Throw e => Throw e
  end.

(** [getBlockByHashes]: one query for all hashes
    ([WHERE b.hash = ANY($1::text[])]), an error unless it returns as many
    rows as hashes were asked for, then the validated rows keyed by hash
    and read back in the order of the request ([blockMap[hash]] is
    [undefined] for a hash without a row). *)
Definition getBlockByHashes (t : Tables) (hashes : list string)
  : Result (list (option BlockOutput)) :=
  let blockRows :=
    List.filter (fun b => existsb (String.eqb (b_hash b)) hashes) (Blocks t) in
  if negb (Nat.eqb (length blockRows) (length hashes))
  then Throw "There was an issue fetching blocks for transaction IDs."
  else
    match fold_left blockMapStep blockRows (Ok ∅) with
    | Ok blockMap => Ok (map (fun hash => blockMap !! hash) hashes)
    | Throw e => Throw e
    end.

End WithValidator.

Definition height_le (a b : Block) : Prop := b_height a <= b_height b.
Definition height_ge (a b : Block) : Prop := b_height b <= b_height a.
Definition id_ge (a b : Block) : Prop := b_id b <= b_id a.

Global Instance height_le_dec : RelDecision height_le.
Proof. intros a b. unfold height_le. apply _. Defined.

Global Instance height_ge_dec : RelDecision height_ge.
Proof. intros a b. unfold height_ge. apply _. Defined.

Global Instance id_ge_dec : RelDecision id_ge.
Proof. intros a b. unfold id_ge. apply _. Defined.

(** [getLowestBlockHeight]: [findOne({ order: [['height', 'ASC']] })],
    then [block?.height || 0]. *)
Definition getLowestBlockHeight (t : Tables) : Z :=
  or_zero (b_height <$> head (merge_sort height_le (Blocks t))).

(** [getLastBlockHeight]: the same with [['height', 'DESC']]. *)
Definition getLastBlockHeight (t : Tables) : Z :=
  or_zero (b_height <$> head (merge_sort height_ge (Blocks t))).

(** The `where` of [getLatestBlocks]: [lastBlockId] and [chainIds]
    restrict the rows only when they are truthy, respectively non-empty. *)
Definition latestFilter (creationTime : Z) (lastBlockId : option Z)
  (chainIds : list Z) (b : Block) : bool :=
  (match lastBlockId with
   | Some id => if Z.eqb id 0 then true else Z.ltb id (b_id b)
   | None => true
   end) &&
  Z.ltb creationTime (b_creationTime b) &&
  (match chainIds with
   | [] => true
   | _ => existsb (Z.eqb (b_chainId b)) chainIds
   end).

(** [getLatestBlocks]: [findAll({ where, limit: 100, order: [['id', 'DESC']] })]. *)
Definition getLatestBlocks (t : Tables) (creationTime : Z)
  (lastBlockId : option Z) (chainIds : list Z) : list Block :=
  take 100
    (merge_sort id_ge
       (List.filter (latestFilter creationTime lastBlockId chainIds) (Blocks t))).

End BlockRepository.

(** The base64 fields of a raw payload, in the order [processPayload]
    decodes them. *)
Definition encodedFields (payload : Streaming.RawPayload) : list string :=
  flat_map (fun tx => [fst tx; snd tx]) (Streaming.rp_transactions payload) ++
  [Streaming.rp_minerData payload; Streaming.rp_coinbase payload].

(** The number of rolled-back transactions in the history of a database. *)
Definition rolledBack (d : Database) : nat :=
  length (List.filter (fun e => match e with
                                | RolledBack => true
                                | Committed => false
                                end) (txHistory d)).

(* --------------------------------------------------------------------- *)
(** ** Pagination argument validation (kadena-server/server.ts)           *)

(** [validatePaginationParamsPlugin.didResolveOperation].  The GraphQL
    document is the part of the AST the hook visits: definitions, their
    selection sets, and for a field its arguments; numeric literals keep
    their source text, which the hook parses. *)
Module PaginationPlugin.

Section WithNumbers.

(** JavaScript numbers, their truthiness, and the two parsers of the
    language applied to literals ([parseInt(_, 10)], [parseFloat]). *)
Context {Number : Type}.
Variable numberTruthy : Number -> bool.
Variable parseInt10 : string -> Number.
Variable parseFloat : string -> Number.

Inductive JsValue : Type :=
| JsNull
| JsBool (b : bool)
| JsNumber (x : Number)
| JsString (s : string)
| JsObject.

(** Truthiness of a destructured property; [None] is [undefined]. *)
Definition truthy (v : option JsValue) : bool :=
  match v with
  | None | Some JsNull => false
  | Some (JsBool b) => b
  | Some (JsNumber x) => numberTruthy x
  | Some (JsString s) => negb (String.eqb s EmptyString)
  | Some JsObject => true
  end.

Inductive ValueNode : Type :=
| StringValue (value : string)
| IntValue (value : string)
| FloatValue (value : string)
| BooleanValue (value : bool)
| OtherValue.

Record ArgumentNode : Type := mkArgument {
  arg_name : string;
  arg_value : ValueNode
}.

#[local] Unset Elimination Schemes.

Inductive SelectionNode : Type :=
| Field (name : string) (arguments : list ArgumentNode)
        (selectionSet : option (list SelectionNode))
| FragmentSpread (name : string)
| InlineFragment (selectionSet : list SelectionNode).

#[local] Set Elimination Schemes.

Inductive DefinitionNode : Type :=
| OperationDefinition (selectionSet : list SelectionNode)
| OtherDefinition.

(** The body of [node.arguments.forEach]: literals of the four kinds are
    stored under the argument's name, anything else is skipped. *)
Definition storeArgument (inlineArguments : gmap string JsValue)
  (arg : ArgumentNode) : gmap string JsValue :=
  match arg_value arg with
  | StringValue v => <[arg_name arg := JsString v]> inlineArguments
  | IntValue v => <[arg_name arg := JsNumber (parseInt10 v)]> inlineArguments
  | FloatValue v => <[arg_name arg := JsNumber (parseFloat v)]> inlineArguments
  | BooleanValue v => <[arg_name arg := JsBool v]> inlineArguments
  | OtherValue => inlineArguments
  end.

(** [extractArguments] on a selection: a FIELD stores its arguments; its
    kind is not SELECTION_SET, so nothing below it is visited, and the
    other selections have neither kind. *)
Definition extractArguments_selection (inlineArguments : gmap string JsValue)
  (node : SelectionNode) : gmap string JsValue :=
  match node with
  | Field _ arguments _ => fold_left storeArgument arguments inlineArguments
  | FragmentSpread _ => inlineArguments
  | InlineFragment _ => inlineArguments
  end.

(** [extractArguments] on a SELECTION_SET node. *)
Definition extractArguments (inlineArguments : gmap string JsValue)
  (selections : list SelectionNode) : gmap string JsValue :=
  fold_left extractArguments_selection selections inlineArguments.

(** [document.definitions.forEach(...)]; no document, no arguments. *)
Definition inlineArgumentsOf (document : option (list DefinitionNode))
  : gmap string JsValue :=
  match document with
  | Some definitions =>
      fold_left
        (fun inlineArguments definition =>
           match definition with
           | OperationDefinition selectionSet =>
               extractArguments inlineArguments selectionSet
           | OtherDefinition => inlineArguments
           end)
        definitions ∅
  | None => ∅
  end.

(** [{ ...inlineArguments, ...variables }]. *)
Definition combinedVariables (variables : gmap string JsValue)
  (document : option (list DefinitionNode)) : gmap string JsValue :=
  variables ∪ inlineArgumentsOf document.

(** A word between double quotes, as the messages below print names. *)
Definition quoted (s : string) : string :=
  String (ascii_of_nat 34) (String.append s (String (ascii_of_nat 34) EmptyString)).

Definition didResolveOperation (variables : gmap string JsValue)
  (document : option (list DefinitionNode)) : Result unit :=
  let combined := combinedVariables variables document in
  let after := combined !! "after" in
  let before := combined !! "before" in
  let first := combined !! "first" in
  let last := combined !! "last" in
  if truthy after && truthy before then
    Throw
       (String.append "You cannot use both " (String.append (quoted "after") (String.append " and " (String.append (quoted "before") " at the same time. Please use only one or none."))))
  else if truthy first && truthy last then
    Throw (String.append "You cannot use both " (String.append (quoted "first") (String.append " and " (String.append (quoted "last") " at the same time. Please use only one or none."))))
  else if truthy before && truthy first then
    Throw (String.append "You cannot use both " (String.append (quoted "before") (String.append " and " (String.append (quoted "first") " at the same time. Use before with last or after with first instead."))))
  else if truthy after && truthy last then
    Throw (String.append "You cannot use both " (String.append (quoted "after") (String.append " and " (String.append (quoted "last") " at the same time. Use before with last or after with first instead."))))
  else Ok tt.

(** *** Readings used to state what the hook validates *)

(** The value a literal argument stores, if its kind is one of the four. *)
Definition literalOf (v : ValueNode) : option JsValue :=
  match v with
  | StringValue s => Some (JsString s)
  | IntValue s => Some (JsNumber (parseInt10 s))
  | FloatValue s => Some (JsNumber (parseFloat s))
  | BooleanValue b => Some (JsBool b)
  | OtherValue => None
  end.

(** The arguments of the top-level fields of the operations of a
    document, in source order. *)
Definition topLevelArguments (document : option (list DefinitionNode))
  : list ArgumentNode :=
  match document with
  | Some definitions =>
      flat_map
        (fun definition =>
           match definition with
           | OperationDefinition selectionSet =>
               flat_map
                 (fun node =>
                    match node with
                    | Field _ arguments _ => arguments
                    | _ => []
                    end)
                 selectionSet
           | OtherDefinition => []
           end)
        definitions
  | None => []
  end.

(** The last literal passed under [name] among [args]. *)
Definition lastLiteral (name : string) (args : list ArgumentNode)
  : option JsValue :=
  last (omap (fun a => if String.eqb (arg_name a) name
                       then literalOf (arg_value a) else None) args).

(** What the hook reads for [name]: the request variable of that name if
    there is one (even [null]), otherwise the last top-level literal. *)
Definition paginationValue (variables : gmap string JsValue)
  (document : option (list DefinitionNode)) (name : string) : option JsValue :=
  match variables !! name with
  | Some v => Some v
  | None => lastLiteral name (topLevelArguments document)
  end.

End WithNumbers.

End PaginationPlugin.

(* --------------------------------------------------------------------- *)
(** ** The transactionsByBlockId resolver (forward keyset pagination)     *)

Module TransactionsByBlockId.

Record TransactionEdge : Type := mkEdge {
  node : Transaction;
  cursor : string
}.

Record TransactionConnection : Type := mkConnection {
  edges : list TransactionEdge;
  endCursor : option string;
  hasNextPage : bool
}.

Definition tid_le (a b : Transaction) : Prop := t_id a <= t_id b.

Global Instance tid_le_dec : RelDecision tid_le.
Proof. intros a b. unfold tid_le. apply _. Defined.

(** [first || 10]. *)
Definition limitOf (first : option Z) : Z :=
  match first with
  | Some n => if Z.eqb n 0 then 10 else n
  | None => 10
  end.

(** [WHERE "blockId" = $1], and [AND id > $3] when there is a cursor. *)
Definition whereClause (blockId : Z) (cursorValue : option Z)
  (row : Transaction) : bool :=
  Z.eqb (t_blockId row) blockId &&
  match cursorValue with
  | Some c => Z.ltb c (t_id row)
  | None => true
  end.

Section WithCursorCodec.

(** The platform around the resolver: [Buffer.from(s, 'ascii')
    .toString('base64')], [Buffer.from(s, 'base64').toString('ascii')],
    and the database reading the text parameter [$3] as a value of the
    integer column [id] ([None]: it rejects the text and the query
    fails). *)
Variable toBase64 : string -> string.
Variable fromBase64 : string -> string.
Variable pgInteger : string -> option Z.

(** [if (after) { cursorCondition = 'AND id > $3'; values.push(...) }]. *)
Definition cursorOf (after : option string) : Result (option Z) :=
  if truthy_str after then
    match after with
    | Some a =>
        match pgInteger (fromBase64 a) with
        | Some c => Ok (Some c)
        | None => Throw "invalid input syntax for type integer"
        end
    | None => Ok None
    end
  else Ok None.

Definition transactionsByBlockId (t : Tables) (blockId : Z)
  (first : option Z) (after : option string) : Result TransactionConnection :=
  let limit := limitOf first in
  match cursorOf after with
  | Throw e => Throw e
  | Ok cursorValue =>
      if Z.ltb (limit + 1) 0 then Throw "LIMIT must not be negative"
      else
        let rows :=
          take (Z.to_nat (limit + 1))
            (merge_sort tid_le
               (List.filter (whereClause blockId cursorValue) (Transactions t))) in
        let hasNextPage := Z.ltb limit (Z.of_nat (length rows)) in
        let rows := if hasNextPage then removelast rows else rows in
        let edges :=
          map (fun row => mkEdge row (toBase64 (pretty (t_id row)))) rows in
        let endCursor := cursor <$> last edges in
        Ok (mkConnection edges endCursor hasNextPage)
  end.

End WithCursorCodec.

End TransactionsByBlockId.

(* --------------------------------------------------------------------- *)
(** ** Qualified event names (event-db-repository.ts, lines 141-143)      *)

Module QualifiedName.

(** [String.prototype.split] at a one-character separator: the pieces
    between the separators, at least one. *)
Fixpoint split (sep : ascii) (s : string) : list string :=
  match s with
  | EmptyString => [EmptyString]
  | String c rest =>
      if Ascii.eqb c sep then EmptyString :: split sep rest
      else match split sep rest with
           | piece :: pieces => String c piece :: pieces
           | [] => [String c EmptyString]
           end
  end.

(** [Array.prototype.join]. *)
Fixpoint join (sep : string) (pieces : list string) : string :=
  match pieces with
  | [] => EmptyString
  | [piece] => piece
  | piece :: rest => piece +:+ sep +:+ join sep rest
  end.

(** The head of [getEventsWithQualifiedName]:
      const splitted = qualifiedEventName.split(".");
      const name = splitted.pop() ?? (the empty string);
      const module = splitted.join(".");
    as the pair [(module, name)] that becomes the parameters of
    [e.module = $2] and [e.name = $3]. *)
Definition moduleAndName (qualifiedEventName : string) : string * string :=
  let splitted := split "." qualifiedEventName in
  let name := default EmptyString (last splitted) in
  let splitted := removelast splitted in
  let module := join "." splitted in
  (module, name).

(** A string without the separator. *)
Definition dotFree (s : string) : Prop :=
  ~ In "."%char (list_ascii_of_string s).

End QualifiedName.

(* --------------------------------------------------------------------- *)
(** ** Concrete stores and collaborators used in examples                 *)
(* --------------------------------------------------------------------- *)

Definition emptyTables : Tables :=
  mkTables [] [] [] ∅ [] [] [] [].

Definition sampleBlock (id : Z) (hash : string) (txCount : option Z) : Block :=
  mkBlock id "0" 0 "parent" "{}" "target" "payload" 0 "weight" 10 "mainnet01"
          0 0 hash "{}" "txh" "outh" "{}" txCount.

(** One block holding one transaction that emitted two events. *)
Definition twoEventTables : Tables :=
  mkTables [sampleBlock 1 "H" (Some 1)]
           [mkTransaction 7 1 "rk"]
           [mkEvent 1 7 "rk" "coin" "TRANSFER" 0;
            mkEvent 2 7 "rk" "coin" "TRANSFER" 1]
           ∅ [] [] [] [].

(** A [getPaginationParams] that hands the cursors through undecoded. *)
Definition plainPagination (after before : option string) (first last : option Z)
  : PaginationParams :=
  mkPaginationParams (default 20 first) "DESC" after before.

Definition onlyBefore (c : string) : GetBlockEventsParams :=
  mkGetBlockEventsParams "H" None (Some c) None None.

Definition onlyAfter (c : string) : GetBlockEventsParams :=
  mkGetBlockEventsParams "H" (Some c) None None None.

Definition emptyWorld : World :=
  mkWorld (mkDatabase emptyTables []) [] [].

Definition demoInfo (key : string) : DispatchInfo :=
  mkDispatchInfo key "0" 10 [] [].

(** A [ProcessKeyFunction] that stores one block per key and fails on the
    keys listed in [bad]. *)
Definition demoProcessKey (bad : list string) (network key : string) (tx : Tables)
  : Result (option DispatchInfo * Tables) :=
  if bool_decide (key ∈ bad) then Throw "invalid payload"
  else Ok (Some (demoInfo key),
           with_Blocks
             (Blocks tx ++
                [sampleBlock (Streaming.nextBlockId (Blocks tx)) key (Some 0)])
             tx).

Definition demoBucket : list string :=
  ["headers/k1"; "headers/k2"; "headers/k3"].

Definition archiveIdent : string * Z * string * Source :=
  ("mainnet01", 0, "headers/", SOURCE_S3).

(** A run of [processKeys] over [demoBucket] for mainnet01, chain 0. *)
Definition demoRun (bad : list string) (maxKeys : nat) (maxIterations : option nat)
  (fuel : nat) (w : World) : option (nat * World) :=
  Archive.processKeys (Archive.s3List demoBucket) (demoProcessKey bad)
    "mainnet01" 0 "headers/" maxKeys maxIterations fuel w.

(** The state the run over all of [demoBucket] leaves behind
    (spec scenario 1). *)
Definition demoHappyWorld : World :=
  mkWorld
    (mkDatabase
       (mkTables [sampleBlock 1 "headers/k1" (Some 0);
                  sampleBlock 2 "headers/k2" (Some 0);
                  sampleBlock 3 "headers/k3" (Some 0)]
                 [] []
                 {[ archiveIdent := mkSyncStatus (Some "headers/k3") None None ]}
                 [] [] [] [])
       [Committed])
    [demoInfo "headers/k1"; demoInfo "headers/k2"; demoInfo "headers/k3"]
    [].

(** A stream in which the text of a message is the hash of its block;
    the message "garbage" does not parse, and the derived facts of the
    block "bad" cannot be written. *)
Definition demoHeader (hash : string) : Streaming.Header :=
  Streaming.mkHeader "0" 0 "parent" "{}" "target" "payload" 3 "weight" 10
                     "mainnet01" 0 0 hash.

Definition demoBlock (hash : string) : Streaming.RawBlock :=
  Streaming.mkRawBlock (demoHeader hash)
    (Streaming.mkRawPayload [] "e30=" "txh" "outh" "payload" "e30=").

Definition demoPayload : Streaming.PayloadData :=
  Streaming.mkPayloadData [] "e30=" "txh" "outh" "payload" "e30=".

Definition demoParse (data : string) : Result Streaming.RawBlock :=
  if String.eqb data "garbage" then Throw "SyntaxError: Unexpected token"
  else Ok (demoBlock data).

Definition demoDecoded (text : string) : Result Json := Ok text.

Definition demoProcessPayloadKey (createdBlock : Block)
  (payloadData : Streaming.PayloadData) (tx : Tables)
  : Result (list Event * Tables) :=
  if String.eqb (b_hash createdBlock) "bad" then Throw "invalid payload"
  else Ok ([], tx).

(** The DispatchInfo [saveBlock] returns for a block of the stream. *)
Definition demoInfoOf (hash : string) : DispatchInfo :=
  mkDispatchInfo hash "3" 10 [] [].

Definition demoHandle : Streaming.StreamEvent -> Streaming.StreamState -> Streaming.StreamState :=
  Streaming.handle demoParse demoDecoded demoProcessPayloadKey.

Definition demoStream : list Streaming.StreamEvent -> Streaming.StreamState -> Streaming.StreamState :=
  Streaming.runStream demoParse demoDecoded demoProcessPayloadKey.

Definition demoStart : Streaming.StreamState :=
  Streaming.mkStreamState emptyWorld ∅.

(** Two recorded API errors and one of another source; the node still
    answers 500 for the range [200, 210]. *)
Definition demoErrors : list SyncError :=
  [mkSyncError 1 "mainnet01" 0 200 210 SOURCE_API;
   mkSyncError 2 "mainnet01" 3 300 310 SOURCE_API;
   mkSyncError 3 "mainnet01" 3 400 410 SOURCE_STREAMING].

Definition demoErrorWorld : World :=
  mkWorld (mkDatabase (with_SyncErrors demoErrors emptyTables) []) [] [].

Definition demoFetch (network : string) (chainId fromHeight toHeight : Z)
  (d : Database) : Database * option string :=
  if Z.eqb fromHeight 200 then (d, Some "Request failed with status code 500")
  else (autocommit
          (fun t => with_Blocks
                      (Blocks t ++
                         [sampleBlock (Streaming.nextBlockId (Blocks t)) "fetched" (Some 0)])
                      t)
          d,
        None).

(** A fetch that behaves as the retry policy describes: a range that is
    still refused is recorded as a new SyncError, under an id above 100
    and above every id stored.  For the range from 200 the exhausted call
    then throws; for the range from 300 it records the error and returns;
    any other range is fetched and its block stored. *)
Definition demoNextErrorId (rows : list SyncError) : Z :=
  fold_left Z.max (map se_id rows) 100 + 1.

Definition demoRecordError (network : string) (chainId fromHeight toHeight : Z)
  (t : Tables) : Tables :=
  with_SyncErrors
    (SyncErrors t ++
       [mkSyncError (demoNextErrorId (SyncErrors t)) network chainId
                    fromHeight toHeight SOURCE_API])
    t.

Definition demoExhaustingFetch (network : string) (chainId fromHeight toHeight : Z)
  (d : Database) : Database * option string :=
  if Z.eqb fromHeight 200
  then (autocommit (demoRecordError network chainId fromHeight toHeight) d,
        Some "Request failed with status code 500")
  else if Z.eqb fromHeight 300
  then (autocommit (demoRecordError network chainId fromHeight toHeight) d, None)
  else (autocommit
          (fun t => with_Blocks
                      (Blocks t ++
                         [sampleBlock (Streaming.nextBlockId (Blocks t)) "fetched" (Some 0)])
                      t)
          d,
        None).

Definition demoSweepErrors : list SyncError :=
  [mkSyncError 1 "mainnet01" 0 200 210 SOURCE_API;
   mkSyncError 2 "mainnet01" 3 300 310 SOURCE_API;
   mkSyncError 3 "mainnet01" 3 400 410 SOURCE_STREAMING;
   mkSyncError 4 "mainnet01" 5 500 510 SOURCE_API].

Definition demoSweepWorld : World :=
  mkWorld (mkDatabase (with_SyncErrors demoSweepErrors emptyTables) []) [] [].

(** Three balances, stored out of id order; the node knows a guard for
    every account but "k:unknown"; the database refuses a batch that
    holds a guard without keys. *)
Definition demoBalances : list Balance :=
  [mkBalance 3 "k:carol" 1 "coin";
   mkBalance 1 "k:alice" 0 "coin";
   mkBalance 2 "k:bob" 0 "coin"].

Definition demoGuardsWorld (balances : list Balance) : World :=
  mkWorld
    (mkDatabase
       (mkTables [] [] [] ∅ [] [] balances
                 [mkGuard "k:stale" 0 "coin" ["stale"] "keys-all"])
       [])
    [] [].

Definition demoGetGuards (rows : list Balance) : Result (list Guard) :=
  if existsb (fun b => String.eqb (bal_account b) "k:unknown") rows
  then Throw "node: row not found"
  else Ok (map (fun b => mkGuard (bal_account b) (bal_chainId b) (bal_module b)
                                 (if String.eqb (bal_account b) "k:nokeys"
                                  then [] else [bal_account b])
                                 "keys-all") rows).

(** [n] balances with ids n, ..., 1, the one with id [n] for [account]. *)
Fixpoint manyBalances (n : nat) (account : string) : list Balance :=
  match n with
  | O => []
  | S m => mkBalance (Z.of_nat n) account 0 "coin" :: manyBalances m "k:alice"
  end.

Definition demoBulkError (guards : list Guard) (tx : Tables) : option string :=
  if existsb (fun g => Nat.eqb (length (g_keys g)) 0) guards
  then Some "notNull Violation: Guard.keys cannot be null"
  else None.

(** A [processPayloadKey] that reports three events, two of them of the
    same transaction and kind. *)
Definition demoEventsPayloadKey (createdBlock : Block)
  (payloadData : Streaming.PayloadData) (tx : Tables)
  : Result (list Event * Tables) :=
  Ok ([mkEvent 1 1 "rk1" "coin" "TRANSFER" 0;
       mkEvent 2 1 "rk1" "coin" "TRANSFER" 1;
       mkEvent 3 2 "rk2" "free.token" "MINT" 0],
      tx).

(** What [saveBlock] returns and stores for the block "H" with it. *)
Definition demoEventsInfo : DispatchInfo :=
  mkDispatchInfo "H" "3" 10 ["rk1"; "rk2"] ["coin.TRANSFER"; "free.token.MINT"].

Definition demoEventsTables : Tables :=
  with_Blocks
    [Streaming.blockAttribute (demoHeader "H") demoPayload 1] emptyTables.

(** A document whose only conflicting arguments sit below the top-level
    field, and the same document without them; numbers are integers, read
    by a decimal parser. *)
Definition demoParseInt (s : string) : Z :=
  fold_left (fun acc c => 10 * acc + (Z.of_nat (nat_of_ascii c) - 48))
            (list_ascii_of_string s) 0.

Definition demoNestedDocument : option (list (PaginationPlugin.DefinitionNode)) :=
  Some [PaginationPlugin.OperationDefinition
          [PaginationPlugin.Field "blocks" []
             (Some [PaginationPlugin.Field "transactions"
                      [PaginationPlugin.mkArgument "first" (PaginationPlugin.IntValue "1");
                       PaginationPlugin.mkArgument "last" (PaginationPlugin.IntValue "1")]
                      None])]].

Definition demoFlatDocument : option (list (PaginationPlugin.DefinitionNode)) :=
  Some [PaginationPlugin.OperationDefinition
          [PaginationPlugin.Field "blocks" [] None]].

(** Four transactions, three of them in block 7; cursors are handed
    through unencoded and read back as decimal numbers. *)
Definition demoTxTables : Tables :=
  mkTables []
           [mkTransaction 3 7 "rk3"; mkTransaction 1 7 "rk1";
            mkTransaction 4 8 "rk4"; mkTransaction 2 7 "rk2"]
           [] ∅ [] [] [] [].

Definition demoCodec (s : string) : string := s.

Definition demoPgInteger (s : string) : option Z :=
  match list_ascii_of_string s with
  | [] => None
  | cs =>
      fold_left
        (fun acc c =>
           match acc with
           | Some n =>
               let d := Z.of_nat (nat_of_ascii c) - 48 in
               if Z.leb 0 d && Z.leb d 9 then Some (10 * n + d) else None
           | None => None
           end)
        cs (Some 0)
  end.

Definition demoPage1 : TransactionsByBlockId.TransactionConnection :=
  TransactionsByBlockId.mkConnection
    [TransactionsByBlockId.mkEdge (mkTransaction 1 7 "rk1") "1";
     TransactionsByBlockId.mkEdge (mkTransaction 2 7 "rk2") "2"]
    (Some "2") true.

(** Three stored blocks, and a validator that keeps the hash and the id
    of a row. *)
Definition demoThreeBlocks : Tables :=
  with_Blocks [sampleBlock 1 "h1" (Some 2);
               sampleBlock 2 "h2" (Some 0);
               sampleBlock 3 "h3" (Some 5)]
              emptyTables.

Definition demoValidate (b : Block) : Result (string * Z) :=
  Ok (b_hash b, b_id b).

(* ===================================================================== *)
(** * Part II.  Properties                                                *)
(* ===================================================================== *)

Section FeatureFlags.
Import IntUint64.

Lemma uint64ToInt64_range (f : Z) :
  - two63 <= uint64ToInt64 f < two63.
Proof.
  unfold uint64ToInt64, asIntN64, two63, two64.
  pose proof (Z.mod_pos_bound f (2 ^ 64) ltac:(lia)) as Hm.
  destruct (Z.ltb_spec (f mod 2 ^ 64) (2 ^ 63)); lia.
Qed.

Lemma uint64ToInt64_congr (f : Z) :
  (uint64ToInt64 f) mod two64 = f mod two64.
Proof.
  unfold uint64ToInt64, asIntN64, two63, two64.
  destruct (Z.ltb_spec (f mod 2 ^ 64) (2 ^ 63)).
  - apply Z.mod_mod. lia.
  - replace (f mod 2 ^ 64 - 2 ^ 64) with (f mod 2 ^ 64 + (-1) * 2 ^ 64) by lia.
    rewrite Z.mod_add by lia. apply Z.mod_mod. lia.
Qed.

(** The stored value has the same low 64 bits as the value received. *)
Lemma uint64ToInt64_bits (f i : Z) :
  0 <= i < 64 -> Z.testbit (uint64ToInt64 f) i = Z.testbit f i.
Proof.
  intros Hi.
  rewrite <- (Z.mod_pow2_bits_low (uint64ToInt64 f) 64 i) by lia.
  rewrite <- (Z.mod_pow2_bits_low f 64 i) by lia.
  f_equal. apply uint64ToInt64_congr.
Qed.

(** C9.  For every unsigned 64-bit value [f], reinterpreting [f] as a
    signed 64-bit integer with [uint64ToInt64] gives a value of the
    signed 64-bit range, and the inverse reinterpretation gives [f]
    back: the u64 -> i64 -> u64 round trip is the identity on all 2^64
    values. *)
Theorem featureFlags_roundtrip (f : Z) :
  0 <= f < 2 ^ 64 ->
  - 2 ^ 63 <= uint64ToInt64 f < 2 ^ 63 /\
  int64ToUint64 (uint64ToInt64 f) = f.
Proof.
  intros Hf. split.
  - apply uint64ToInt64_range.
  - unfold int64ToUint64, asUintN64.
    rewrite uint64ToInt64_congr. unfold two64.
    apply Z.mod_small. lia.
Qed.

Lemma featureFlags_roundtrip_witness :
  (- 2 ^ 63 <= uint64ToInt64 (2 ^ 64 - 1) < 2 ^ 63) /\
  int64ToUint64 (uint64ToInt64 (2 ^ 64 - 1)) = 2 ^ 64 - 1.
Proof. apply (featureFlags_roundtrip (2 ^ 64 - 1)). lia. Defined.

End FeatureFlags.

(* --------------------------------------------------------------------- *)
(** ** Repositories                                                       *)
(* --------------------------------------------------------------------- *)

Section Repositories.

Lemma findOne_by_hash_Some (t : Tables) (h : string) (b : Block) :
  BlockDbRepository.findOne_by_hash h t = Some b ->
  b ∈ Blocks t /\ b_hash b = h.
Proof.
  unfold BlockDbRepository.findOne_by_hash. intros Hf.
  apply find_some in Hf as [Hin Heq].
  split; [by apply list_elem_of_In | by apply String.eqb_eq].
Qed.

Lemma findOne_by_hash_None (t : Tables) (h : string) :
  BlockDbRepository.findOne_by_hash h t = None ->
  forall b, b ∈ Blocks t -> b_hash b <> h.
Proof.
  unfold BlockDbRepository.findOne_by_hash. intros Hf b Hin Heq.
  apply list_elem_of_In in Hin.
  pose proof (find_none _ _ Hf b Hin) as Hne. cbn in Hne.
  apply String.eqb_neq in Hne. contradiction.
Qed.

(** C10.  [BlockDbRepository.getTotalCountOfBlockEvents] answers with the
    stored [transactionsCount] of the block found by hash, with 0 when no
    block has that hash or the attribute is null; it does not count
    "Events" rows, and there is a store on which it differs from
    [EventDbRepository.getTotalCountOfBlockEvents], which counts the events
    joined through "Transactions" for the same hash. *)
Theorem block_repository_count_is_transactionsCount :
  (forall (t : Tables) (h : string),
      (exists b n, b ∈ Blocks t /\ b_hash b = h /\
                   b_transactionsCount b = Some n /\
                   BlockDbRepository.getTotalCountOfBlockEvents t h = n) \/
      ((forall b, b ∈ Blocks t -> b_hash b <> h) /\
       BlockDbRepository.getTotalCountOfBlockEvents t h = 0) \/
      (exists b, b ∈ Blocks t /\ b_hash b = h /\
                 b_transactionsCount b = None /\
                 BlockDbRepository.getTotalCountOfBlockEvents t h = 0)) /\
  (forall (t : Tables) (h : string) (evs evs' : list Event) (txs txs' : list Transaction),
      BlockDbRepository.getTotalCountOfBlockEvents
        (mkTables (Blocks t) txs evs (SyncStatuses t) (SyncErrors t)
                  (StreamingErrors t) (Balances t) (Guards t)) h =
      BlockDbRepository.getTotalCountOfBlockEvents
        (mkTables (Blocks t) txs' evs' (SyncStatuses t) (SyncErrors t)
                  (StreamingErrors t) (Balances t) (Guards t)) h) /\
  (BlockDbRepository.getTotalCountOfBlockEvents twoEventTables "H" = 1 /\
   EventDbRepository.getTotalCountOfBlockEvents twoEventTables "H" = 2 /\
   EventDbRepository2.getTotalCountOfBlockEvents twoEventTables "H" = 2).
Proof.
  split; [| split].
  - intros t h. unfold BlockDbRepository.getTotalCountOfBlockEvents.
    destruct (BlockDbRepository.findOne_by_hash h t) as [b|] eqn:Hf.
    + apply findOne_by_hash_Some in Hf as [Hin Hh].
      destruct (b_transactionsCount b) as [n|] eqn:Hc.
      * left. exists b, n. repeat split; try done.
        cbn. destruct (Z.eqb_spec n 0); congruence.
      * right; right. exists b. by repeat split.
    + right; left. split; [| done].
      by apply findOne_by_hash_None.
  - reflexivity.
  - by vm_compute.
Qed.

(** What the claim says of a [getBlockEvents]: a `before` cursor supplied
    alone adds `e.id < $3` with $3 bound to it, an `after` cursor supplied
    alone adds `e.id > $3` with $3 bound to it. *)
Definition before_is_less_after_is_greater
  (getBlockEvents : GetBlockEventsParams -> BlockEventsQuery) : Prop :=
  forall c : string, c <> EmptyString ->
    (conditions (getBlockEvents (onlyBefore c)) = nl +:+ "AND e.id < $3" /\
     placeholder 3 (queryParams (getBlockEvents (onlyBefore c))) = Some (SqlStr c)) /\
    (conditions (getBlockEvents (onlyAfter c)) = nl +:+ "AND e.id > $3" /\
     placeholder 3 (queryParams (getBlockEvents (onlyAfter c))) = Some (SqlStr c)).

Lemma truthy_str_Some (c : string) :
  c <> EmptyString -> truthy_str (Some c) = true.
Proof.
  intros Hc. cbn. apply negb_true_iff. by apply String.eqb_neq.
Qed.

(** The first revision does what the claim says, whatever
    [getPaginationParams] is. *)
Lemma getBlockEvents_rev1_as_claimed gpp :
  before_is_less_after_is_greater (EventDbRepository.getBlockEvents gpp).
Proof.
  intros c Hc. unfold EventDbRepository.getBlockEvents, onlyBefore, onlyAfter.
  cbn [p_before p_after p_hash p_first p_last].
  rewrite (truthy_str_Some c Hc). cbn. done.
Qed.

(** C8, as stated, fails on the second revision, which compares the other
    way round: with the cursors handed through, `before = "5"` alone adds
    `e.id > $3`. *)
Lemma getBlockEvents_rev2_not_as_claimed :
  conditions (EventDbRepository2.getBlockEvents plainPagination (onlyBefore "5"))
    = nl +:+ "AND e.id > $3" /\
  conditions (EventDbRepository2.getBlockEvents plainPagination (onlyAfter "5"))
    = nl +:+ "AND e.id < $3" /\
  ~ before_is_less_after_is_greater
      (EventDbRepository2.getBlockEvents plainPagination).
Proof.
  split; [reflexivity | split; [reflexivity |]].
  intros H. destruct (H "5") as [[Hb _] _]; [discriminate |].
  vm_compute in Hb. discriminate.
Qed.

(** C8 (amended).  In the first revision of [getBlockEvents] (lines
    45-100) a truthy `before` cursor supplied without `after` adds
    `e.id < $3` with $3 bound to `before`, and a truthy `after` supplied
    without `before` adds `e.id > $3` with $3 bound to `after`.  In the
    second revision (lines 462-514) the cursors are those returned by
    [getPaginationParams] and the comparisons are the other way round:
    `before` adds `e.id > $3`, `after` adds `e.id < $3`. *)
Theorem getBlockEvents_cursor_conditions
  (gpp : option string -> option string -> option Z -> option Z -> PaginationParams)
  (params : GetBlockEventsParams) (c : string) :
  c <> EmptyString ->
  let q1 := EventDbRepository.getBlockEvents gpp params in
  let q2 := EventDbRepository2.getBlockEvents gpp params in
  let pp := gpp (p_after params) (p_before params) (p_first params) (p_last params) in
  (p_before params = Some c -> truthy_str (p_after params) = false ->
     conditions q1 = nl +:+ "AND e.id < $3" /\
     placeholder 3 (queryParams q1) = Some (SqlStr c)) /\
  (p_after params = Some c -> truthy_str (p_before params) = false ->
     conditions q1 = nl +:+ "AND e.id > $3" /\
     placeholder 3 (queryParams q1) = Some (SqlStr c)) /\
  (pp_before pp = Some c -> truthy_str (pp_after pp) = false ->
     conditions q2 = nl +:+ "AND e.id > $3" /\
     placeholder 3 (queryParams q2) = Some (SqlStr c)) /\
  (pp_after pp = Some c -> truthy_str (pp_before pp) = false ->
     conditions q2 = nl +:+ "AND e.id < $3" /\
     placeholder 3 (queryParams q2) = Some (SqlStr c)).
Proof.
  intros Hc q1 q2 pp. pose proof (truthy_str_Some c Hc) as Ht.
  split; [| split; [| split]]; intros Hcur Hother; subst q1 q2 pp;
    unfold EventDbRepository.getBlockEvents, EventDbRepository2.getBlockEvents;
    rewrite Hcur in *; rewrite ?Hother, ?Ht; cbn;
    rewrite ?Hother, ?Ht; split; reflexivity.
Qed.

Lemma getBlockEvents_cursor_conditions_witness :
  conditions (EventDbRepository.getBlockEvents plainPagination (onlyBefore "5"))
    = nl +:+ "AND e.id < $3" /\
  placeholder 3 (queryParams
    (EventDbRepository.getBlockEvents plainPagination (onlyBefore "5")))
    = Some (SqlStr "5") /\
  conditions (EventDbRepository2.getBlockEvents plainPagination (onlyBefore "5"))
    = nl +:+ "AND e.id > $3".
Proof.
  pose proof (getBlockEvents_cursor_conditions
                plainPagination (onlyBefore "5") "5" ltac:(discriminate)) as H.
  cbv zeta in H. destruct H as (H1 & _ & H3 & _).
  specialize (H1 eq_refl eq_refl). specialize (H3 eq_refl eq_refl).
  destruct H1 as [Ha Hb]. destruct H3 as [Hc _].
  repeat split; assumption.
Defined.

End Repositories.

(* --------------------------------------------------------------------- *)
(** ** The archive run                                                    *)
(* --------------------------------------------------------------------- *)

Section ArchiveRun.

Import Archive.

(** Spec scenario 1: three keys, three blocks, cursor at the last key,
    three DispatchInfo. *)
Example demoRun_happy :
  demoRun [] 3 None 5 emptyWorld = Some (3%nat, demoHappyWorld).
Proof. vm_compute. reflexivity. Qed.

(** Spec scenario 2: one page of three keys, the middle one invalid. *)
Example demoRun_mid_key_failure :
  demoRun ["headers/k2"] 3 None 5 emptyWorld =
  Some (0%nat,
        mkWorld (mkDatabase emptyTables [RolledBack]) []
          ["Error processing block headers from storage: invalid payload"]).
Proof. vm_compute. reflexivity. Qed.

Section Generic.

Variable listS3Objects : string -> nat -> option string -> Result (list string).
Variable processKey :
  string -> string -> Tables -> Result (option DispatchInfo * Tables).
Variables (network : string) (chainId : Z) (prefix : string).
Variables (maxKeys : nat) (maxIterations : option nat).

Local Abbreviation processAll := (processAll processKey network).
Local Abbreviation loopBody :=
  (loopBody listS3Objects processKey network prefix maxKeys).
Local Abbreviation while_loop :=
  (while_loop listS3Objects processKey network prefix maxKeys maxIterations).
Local Abbreviation history :=
  (history listS3Objects processKey network prefix maxKeys maxIterations).
Local Abbreviation pageOf := (pageOf listS3Objects processKey network prefix maxKeys).
Local Abbreviation initialVars := (initialVars network chainId prefix).
Local Abbreviation processKeys :=
  (processKeys listS3Objects processKey network chainId prefix maxKeys maxIterations).

Lemma processAll_length keys tx res tx' :
  processAll keys tx = Ok (res, tx') -> length res = length keys.
Proof.
  revert tx res tx'. induction keys as [|k keys IH]; intros tx res tx' H; cbn in H.
  - by inversion H.
  - destruct (processKey network k tx) as [[r tx1]|]; [| discriminate].
    destruct (processAll keys tx1) as [[rs tx2]|] eqn:Hrest; [| discriminate].
    inversion H; subst. cbn. f_equal. eauto.
Qed.

(** A key that fails makes the whole page fail. *)
Lemma processAll_Throw keys1 key keys2 tx tx1 res e :
  processAll keys1 tx = Ok (res, tx1) ->
  processKey network key tx1 = Throw e ->
  processAll (keys1 ++ key :: keys2) tx = Throw e.
Proof.
  revert tx res. induction keys1 as [|k keys1 IH]; intros tx res H Hk; cbn in *.
  - inversion H; subst. by rewrite Hk.
  - destruct (processKey network k tx) as [[r tx0]|]; [| discriminate].
    destruct (processAll keys1 tx0) as [[rs tx2]|] eqn:Hrest; [| discriminate].
    inversion H; subst. by rewrite (IH _ _ Hrest Hk).
Qed.

(** The two ways a pass through the body ends without an exception. *)
Lemma loopBody_Ok v v1 :
  loopBody v = Ok v1 ->
  (exists keys res,
      keys <> [] /\
      listS3Objects prefix maxKeys (lv_startAfter v) = Ok keys /\
      processAll keys (lv_tx v) = Ok (res, lv_tx v1) /\
      pageOf v = [(keys, res)] /\
      lv_world v1 = addPublishEvents (omap id res) (lv_world v) /\
      lv_startAfter v1 = last keys /\
      lv_isFinished v1 = lv_isFinished v /\
      lv_iterationCount v1 = S (lv_iterationCount v) /\
      lv_totalKeysProcessed v1 = (lv_totalKeysProcessed v + length keys)%nat) \/
  (listS3Objects prefix maxKeys (lv_startAfter v) = Ok [] /\
   pageOf v = [] /\
   v1 = mkLoopVars (lv_tx v) (lv_world v) (lv_startAfter v) true
                   (lv_iterationCount v) (lv_totalKeysProcessed v)).
Proof.
  unfold Archive.loopBody, Archive.pageOf.
  destruct (listS3Objects prefix maxKeys (lv_startAfter v)) as [keys|]; [| discriminate].
  destruct keys as [|k keys].
  - cbn. intros H; inversion H; subst. right. repeat split; reflexivity.
  - change (Nat.ltb 0 (length (k :: keys))) with true. cbv iota.
    destruct (processAll (k :: keys) (lv_tx v)) as [[res tx']|] eqn:Hall;
      [| discriminate].
    intros H; inversion H; subst; clear H. left. exists (k :: keys), res.
    cbn [lv_tx lv_world lv_startAfter lv_isFinished lv_iterationCount
         lv_totalKeysProcessed].
    repeat split; try reflexivity; try assumption. discriminate.
Qed.

Lemma cursorAfter_cons sa page h :
  cursorAfter sa (page :: h) = cursorAfter (last (fst page)) h.
Proof.
  unfold cursorAfter. destruct h as [|p h]; [done |].
  rewrite last_cons_cons.
  destruct (last (p :: h)) eqn:E; [done |].
  apply last_None in E. discriminate.
Qed.

(** What the loop has done when it is left, in terms of its history. *)
Lemma while_loop_history fuel v ex :
  while_loop fuel v = Some ex ->
  bus (lv_world (exitVars ex)) = bus (lv_world v) ++ dispatched (history fuel v) /\
  db (lv_world (exitVars ex)) = db (lv_world v) /\
  console (lv_world (exitVars ex)) = console (lv_world v) /\
  lv_totalKeysProcessed (exitVars ex) =
    (lv_totalKeysProcessed v + keysIn (history fuel v))%nat /\
  lv_startAfter (exitVars ex) = cursorAfter (lv_startAfter v) (history fuel v).
Proof.
  revert v. induction fuel as [|fuel IH]; intros v H; cbn in H; [discriminate |].
  cbn [Archive.history].
  destruct (Archive.loopCondition maxIterations v).
  2:{ inversion H; subst; cbn. rewrite app_nil_r. repeat split; try done; unfold keysIn; cbn; lia. }
  destruct (loopBody v) as [v1|e] eqn:Hbody.
  2:{ inversion H; subst; cbn. rewrite app_nil_r. repeat split; try done; unfold keysIn; cbn; lia. }
  destruct (IH _ H) as (Hbus & Hdb & Hcon & Htot & Hcur).
  apply loopBody_Ok in Hbody
    as [(keys & res & Hne & Hlist & Hall & Hpage & Hw & Hsa & Hfin & Hit & Ht)
       | (Hlist & Hpage & ->)].
  - rewrite Hpage. cbn [app]. rewrite cursorAfter_cons. cbn [fst].
    rewrite Hbus, Hdb, Hcon, Htot, Hcur, Hw, Ht, Hsa.
    unfold dispatched, keysIn. cbn. rewrite app_assoc.
    repeat split; try done; lia.
  - rewrite Hpage. cbn [app]. rewrite Hbus, Hdb, Hcon, Htot, Hcur. done.
Qed.

Lemma history_pages_listed fuel v :
  Forall (fun page =>
            fst page <> [] /\
            length (snd page) = length (fst page) /\
            exists startAfter,
              listS3Objects prefix maxKeys startAfter = Ok (fst page))
         (history fuel v).
Proof.
  revert v. induction fuel as [|fuel IH]; intros v; cbn; [constructor |].
  destruct (Archive.loopCondition maxIterations v); [| constructor].
  destruct (loopBody v) as [v1|e] eqn:Hbody; [| constructor].
  apply loopBody_Ok in Hbody
    as [(keys & res & Hne & Hlist & Hall & Hpage & _) | (_ & Hpage & _)];
    rewrite Hpage; cbn [app]; [| apply IH].
  constructor; [| apply IH]. cbn. repeat split; [done | | by eexists].
  by eapply processAll_length.
Qed.

Lemma key_le_refl k : key_le k k.
Proof. unfold key_le. by destruct (String.leb_total k k). Qed.

(** In a sorted page the last key is the greatest. *)
Lemma sorted_last_is_max (page : list string) (key : string) :
  StronglySorted key_le page -> last page = Some key ->
  forall k, k ∈ page -> key_le k key.
Proof.
  induction 1 as [|x l Hs IH Hall]; intros Hlast k Hk; [by inversion Hk |].
  destruct l as [|y l].
  - cbn in Hlast. inversion Hlast; subst.
    apply list_elem_of_singleton in Hk as ->. apply key_le_refl.
  - rewrite last_cons_cons in Hlast.
    apply elem_of_cons in Hk as [-> | Hk]; [| by apply IH].
    rewrite Forall_forall in Hall. apply Hall.
    by apply last_Some_elem_of.
Qed.

(** The two ways [processKeys] returns. *)
Lemma processKeys_Some fuel w n w' :
  processKeys fuel w = Some (n, w') ->
  exists ex, while_loop fuel (initialVars w) = Some ex /\
             n = lv_totalKeysProcessed (exitVars ex) /\
             match ex with
             | Finished v =>
                 w' = with_db
                        (commit (save chainId network (lv_startAfter v) prefix
                                      SOURCE_S3 (lv_tx v))
                                (db (lv_world v)))
                        (lv_world v)
             | Thrown e v =>
                 w' = log ("Error processing block headers from storage: " +:+ e)
                          (with_db (rollback (db (lv_world v))) (lv_world v))
             end.
Proof.
  unfold Archive.processKeys.
  destruct (while_loop fuel (initialVars w)) as [[v|e v]|]; [| | discriminate];
    intros H; inversion H; subst; eexists; repeat split.
Qed.

Lemma last_txHistory_commit tx d : last (txHistory (commit tx d)) = Some Committed.
Proof. cbn. apply last_snoc. Qed.

Lemma last_txHistory_rollback d : last (txHistory (rollback d)) = Some RolledBack.
Proof. cbn. apply last_snoc. Qed.

(** A run that failed leaves the committed tables as they were, logs one
    line and returns. *)
Lemma processKeys_rollback_restores_tables fuel w n w' :
  processKeys fuel w = Some (n, w') ->
  last (txHistory (db w')) = Some RolledBack ->
  committed (db w') = committed (db w) /\
  txHistory (db w') = txHistory (db w) ++ [RolledBack] /\
  exists e, console w' =
            console w ++ ["Error processing block headers from storage: " +:+ e].
Proof.
  intros Hrun Hlast.
  apply processKeys_Some in Hrun as (ex & Hloop & _ & Hw).
  destruct (while_loop_history _ _ _ Hloop) as (_ & Hdb & Hcon & _).
  destruct ex as [v|e v]; subst w'; cbn in *.
  - rewrite last_snoc in Hlast. discriminate.
  - rewrite Hdb, Hcon. repeat split. by exists e.
Qed.

End Generic.







End ArchiveRun.

(* --------------------------------------------------------------------- *)
(** ** The tip streamer                                                   *)
(* --------------------------------------------------------------------- *)

Section TipStreamer.

Import Streaming.

(** Spec scenario 3: the block H delivered twice, another block in
    between: two transactions in all, one row for H. *)
Example demoStream_dedup :
  let s := demoStream [BlockHeader "H"; BlockHeader "G"; BlockHeader "H"] demoStart in
  txHistory (db (st_world s)) = [Committed; Committed] /\
  map b_hash (Blocks (committed (db (st_world s)))) = ["H"; "G"] /\
  StreamingErrors (committed (db (st_world s))) = [].
Proof. vm_compute. repeat split; reflexivity. Qed.

(** After the timer has fired the same hash reaches the Materialiser
    again, and the unique constraint turns it away. *)
Example demoStream_after_clear :
  let s := demoStream [BlockHeader "H"; ClearTimer; BlockHeader "H"] demoStart in
  txHistory (db (st_world s)) = [Committed; RolledBack] /\
  map b_hash (Blocks (committed (db (st_world s)))) = ["H"] /\
  StreamingErrors (committed (db (st_world s))) = [mkStreamingError "H" 3].
Proof. vm_compute. repeat split; reflexivity. Qed.

Section Generic.

Variable JSON_parse : string -> Result RawBlock.
Variable getDecoded : string -> Result Json.
Variable processPayloadKey :
  Block -> PayloadData -> Tables -> Result (list Event * Tables).

Local Abbreviation processPayload := (processPayload getDecoded).
Local Abbreviation saveBlock := (saveBlock processPayloadKey).
Local Abbreviation onBlockHeader :=
  (onBlockHeader JSON_parse getDecoded processPayloadKey).
Local Abbreviation handle := (handle JSON_parse getDecoded processPayloadKey).
Local Abbreviation runStream := (runStream JSON_parse getDecoded processPayloadKey).

Lemma onBlockHeader_seen data block payload s :
  JSON_parse data = Ok block ->
  processPayload (rb_payloadWithOutputs block) = Ok payload ->
  h_hash (rb_header block) ∈ blocksAlreadyReceived s ->
  onBlockHeader data s = s.
Proof.
  intros Hp Hd Hin. unfold Streaming.onBlockHeader. rewrite Hp, Hd.
  by rewrite bool_decide_eq_true_2.
Qed.

Lemma onBlockHeader_new data block payload s :
  JSON_parse data = Ok block ->
  processPayload (rb_payloadWithOutputs block) = Ok payload ->
  h_hash (rb_header block) ∉ blocksAlreadyReceived s ->
  onBlockHeader data s =
  mkStreamState
    (match fst (saveBlock (rb_header block) payload (st_world s)) with
     | None => StreamingError_create (h_hash (rb_header block))
                 (h_chainId (rb_header block))
                 (snd (saveBlock (rb_header block) payload (st_world s)))
     | Some _ => snd (saveBlock (rb_header block) payload (st_world s))
     end)
    ({[h_hash (rb_header block)]} ∪ blocksAlreadyReceived s).
Proof.
  intros Hp Hd Hin. unfold Streaming.onBlockHeader. rewrite Hp, Hd.
  rewrite bool_decide_eq_false_2 by done.
  by destruct (saveBlock _ _ _) as [[info|] w1].
Qed.

(** A message whose hash is in the set opens no transaction and writes
    nothing, whether or not its payload decodes. *)
Lemma onBlockHeader_seen_db data block s :
  JSON_parse data = Ok block ->
  h_hash (rb_header block) ∈ blocksAlreadyReceived s ->
  db (st_world (onBlockHeader data s)) = db (st_world s) /\
  blocksAlreadyReceived (onBlockHeader data s) = blocksAlreadyReceived s.
Proof.
  intros Hp Hin. unfold Streaming.onBlockHeader. rewrite Hp.
  destruct (processPayload _) as [payload|e]; [| done].
  by rewrite bool_decide_eq_true_2.
Qed.

(** The listeners of [startStreaming] never touch the Bus. *)
Lemma runStream_bus evs s :
  bus (st_world (runStream evs s)) = bus (st_world s).
Proof.
  revert s. induction evs as [|ev evs IH]; intros s; [done |].
  change (runStream (ev :: evs) s) with (runStream evs (handle ev s)).
  rewrite IH. destruct ev as [data| |]; cbn; try done.
  unfold Streaming.onBlockHeader.
  destruct (JSON_parse data) as [block|]; [| done].
  destruct (processPayload _) as [payload|]; [| done].
  case_bool_decide; [done |].
  unfold Streaming.saveBlock.
  by destruct (saveBlock_try _ _ _ _) as [[info tx']|e].
Qed.

(** Whatever the message, the listener only adds to the set. *)
Lemma onBlockHeader_received data s :
  blocksAlreadyReceived s ⊆ blocksAlreadyReceived (onBlockHeader data s).
Proof.
  unfold Streaming.onBlockHeader.
  destruct (JSON_parse data) as [block|]; [| done].
  destruct (processPayload _) as [payload|]; [| done].
  case_bool_decide; [done |].
  destruct (saveBlock _ _ _) as [[info|] w1]; cbn; set_solver.
Qed.

(** Between two firings of the timer a hash stays in the set. *)
Lemma runStream_received evs s hash :
  ClearTimer ∉ evs ->
  hash ∈ blocksAlreadyReceived s ->
  hash ∈ blocksAlreadyReceived (runStream evs s).
Proof.
  revert s. induction evs as [|ev evs IH]; intros s Hno Hin; [done |].
  cbn. apply IH; [set_solver |].
  destruct ev as [data| |]; cbn.
  - by apply onBlockHeader_received.
  - done.
  - set_solver.
Qed.

(** [saveBlock] is one transaction. *)
Lemma saveBlock_one_transaction headerData payloadData w :
  txHistory (db (snd (saveBlock headerData payloadData w))) =
  txHistory (db w) ++ [match fst (saveBlock headerData payloadData w) with
                       | Some _ => Committed
                       | None => RolledBack
                       end].
Proof.
  unfold Streaming.saveBlock.
  by destruct (saveBlock_try _ _ _ _) as [[info tx']|e].
Qed.

(** A rolled-back [saveBlock] leaves the committed tables as they were. *)
Lemma saveBlock_null headerData payloadData w :
  fst (saveBlock headerData payloadData w) = None ->
  committed (db (snd (saveBlock headerData payloadData w))) = committed (db w) /\
  bus (snd (saveBlock headerData payloadData w)) = bus w.
Proof.
  unfold Streaming.saveBlock.
  by destruct (saveBlock_try _ _ _ _) as [[info tx']|e].
Qed.

Lemma filter_hash_nil hash (bs : list Block) :
  existsb (fun b => String.eqb (b_hash b) hash) bs = false ->
  List.filter (fun b => String.eqb (b_hash b) hash) bs = [].
Proof.
  induction bs as [|b bs IH]; cbn; [done |].
  destruct (String.eqb (b_hash b) hash); cbn; [discriminate | exact IH].
Qed.

(** A committed [saveBlock] has stored exactly one row with the hash of the
    block, provided [processPayloadKey] leaves "Blocks" alone. *)
Lemma saveBlock_commit_one_row headerData payloadData w info :
  (forall b p t evs t',
      processPayloadKey b p t = Ok (evs, t') -> Blocks t' = Blocks t) ->
  fst (saveBlock headerData payloadData w) = Some info ->
  exists row,
    b_hash row = h_hash headerData /\
    rowsWithHash (h_hash headerData)
      (committed (db (snd (saveBlock headerData payloadData w)))) = [row].
Proof.
  intros Hkeep. unfold Streaming.saveBlock, saveBlock_try, Block_create.
  cbn [b_hash blockAttribute].
  destruct (existsb _ _) eqn:Hex; [discriminate |].
  destruct (processPayloadKey _ _ _) as [[evs tx2]|e] eqn:Hpk; [| discriminate].
  intros _. cbn. eexists. split; [| unfold rowsWithHash].
  2:{ rewrite (Hkeep _ _ _ _ _ Hpk). cbn.
      rewrite List.filter_app, (filter_hash_nil _ _ Hex). cbn.
      rewrite String.eqb_refl. reflexivity. }
  reflexivity.
Qed.

End Generic.


Lemma demoProcessPayloadKey_keeps_Blocks b p t evs t' :
  demoProcessPayloadKey b p t = Ok (evs, t') -> Blocks t' = Blocks t.
Proof.
  unfold demoProcessPayloadKey.
  destruct (String.eqb (b_hash b) "bad"); [discriminate |].
  intros H; inversion H; reflexivity.
Qed.


(** C5.  For a block whose hash has not been received: when [saveBlock]
    returns null (its transaction was rolled back, the committed tables
    are as before) the listener adds the row {hash, chainId} to
    "StreamingErrors" and nothing else; when [saveBlock] returns a
    DispatchInfo the listener leaves the state exactly as [saveBlock] left
    it, so no "StreamingErrors" row is created.  In both cases the listener
    returns and the events that follow are handled. *)
Theorem streaming_error_iff_null
  (JSON_parse : string -> Result RawBlock)
  (getDecoded : string -> Result Json)
  (processPayloadKey : Block -> PayloadData -> Tables -> Result (list Event * Tables))
  (data : string) (block : RawBlock) (payload : PayloadData)
  (rest : list StreamEvent) (s : StreamState) :
  JSON_parse data = Ok block ->
  processPayload getDecoded (rb_payloadWithOutputs block) = Ok payload ->
  h_hash (rb_header block) ∉ blocksAlreadyReceived s ->
  let saved := saveBlock processPayloadKey (rb_header block) payload (st_world s) in
  let s1 := handle JSON_parse getDecoded processPayloadKey (BlockHeader data) s in
  let before := committed (db (st_world s)) in
  let after := committed (db (st_world s1)) in
  (fst saved = None ->
     StreamingErrors after =
       StreamingErrors before ++
         [mkStreamingError (h_hash (rb_header block)) (h_chainId (rb_header block))] /\
     after = with_StreamingErrors (StreamingErrors after) before /\
     last (txHistory (db (st_world s1))) = Some RolledBack) /\
  (forall info, fst saved = Some info ->
     st_world s1 = snd saved /\
     last (txHistory (db (st_world s1))) = Some Committed) /\
  runStream JSON_parse getDecoded processPayloadKey (BlockHeader data :: rest) s =
    runStream JSON_parse getDecoded processPayloadKey rest s1.
Proof.
  intros Hp Hd Hnew saved s1 before after.
  assert (Hs1 : s1 = mkStreamState
            (match fst saved with
             | None => StreamingError_create (h_hash (rb_header block))
                         (h_chainId (rb_header block)) (snd saved)
             | Some _ => snd saved
             end)
            ({[h_hash (rb_header block)]} ∪ blocksAlreadyReceived s)).
  { subst s1 saved. cbn [handle]. by eapply onBlockHeader_new. }
  pose proof (saveBlock_one_transaction processPayloadKey
                (rb_header block) payload (st_world s)) as Htx.
  fold saved in Htx.
  split; [| split].
  - intros Hnull.
    destruct (saveBlock_null processPayloadKey _ _ _ Hnull) as [Hsame _].
    fold saved in Hsame. subst after before. rewrite Hs1, Hnull. cbn.
    rewrite Hsame, Htx, Hnull.
    split; [reflexivity |]. split; [reflexivity | apply last_snoc].
  - intros info Hinfo. subst after. rewrite Hs1, Hinfo. cbn.
    split; [reflexivity |]. rewrite Htx, Hinfo. apply last_snoc.
  - reflexivity.
Qed.

Lemma streaming_error_iff_null_witness :
  StreamingErrors (committed (db (st_world (demoHandle (BlockHeader "bad") demoStart))))
    = [mkStreamingError "bad" 3] /\
  demoStream [BlockHeader "bad"; BlockHeader "H"] demoStart =
    demoStream [BlockHeader "H"] (demoHandle (BlockHeader "bad") demoStart) /\
  StreamingErrors (committed (db (st_world (demoHandle (BlockHeader "H") demoStart))))
    = [].
Proof.
  pose proof (streaming_error_iff_null demoParse demoDecoded demoProcessPayloadKey
                "bad" (demoBlock "bad") demoPayload [BlockHeader "H"] demoStart
                eq_refl eq_refl) as Hbad.
  pose proof (streaming_error_iff_null demoParse demoDecoded demoProcessPayloadKey
                "H" (demoBlock "H") demoPayload [] demoStart
                eq_refl eq_refl) as Hok.
  assert (Hnew : forall hash, hash ∉ blocksAlreadyReceived demoStart).
  { intros hash Hin. vm_compute in Hin. inversion Hin. }
  specialize (Hbad (Hnew _)). specialize (Hok (Hnew _)).
  cbv zeta in Hbad, Hok.
  destruct Hbad as (Hnull & _ & Hcont). destruct Hok as (_ & Hsome & _).
  destruct (Hnull ltac:(vm_compute; reflexivity)) as (Hrows & _).
  destruct (Hsome (demoInfoOf "H") ltac:(vm_compute; reflexivity)) as (Hw & _).
  split; [exact Hrows |]. split; [exact Hcont |].
  unfold demoHandle. rewrite Hw. vm_compute. reflexivity.
Defined.

End TipStreamer.

(* --------------------------------------------------------------------- *)
(** ** The sweep over recorded errors                                     *)
(* --------------------------------------------------------------------- *)

Section RetrySweep.

Import RetryErrors.

(** Spec scenario 5, second half: the range that still fails keeps its
    row, the range that succeeds loses it, the row of another source is
    not looked at. *)
Example demoSweep :
  let w := startRetryErrors demoFetch "mainnet01" demoErrorWorld in
  map se_id (SyncErrors (committed (db w))) = [1; 3] /\
  map b_hash (Blocks (committed (db w))) = ["fetched"] /\
  console w = ["Starting retrying failed blocks...";
               "Error during error retrying: Request failed with status code 500";
               "Moving to next error..."].
Proof. vm_compute. repeat split; reflexivity. Qed.

Section Generic.

Variable fetchHeadersWithRetry :
  string -> Z -> Z -> Z -> Database -> Database * option string.

(** The ids in use when the sweep starts. *)
Variable ids0 : list Z.

(** The fetch writes blocks, and it may record new errors: it keeps every
    row of "SyncErrors" there is, and a row it adds carries an id that was
    not in use when the sweep started. *)
Hypothesis fetch_keeps_rows :
  forall network chainId fromHeight toHeight d row,
    row ∈ SyncErrors (committed d) ->
    row ∈ SyncErrors (committed (fst (fetchHeadersWithRetry network chainId
                                        fromHeight toHeight d))).

Hypothesis fetch_adds_fresh :
  forall network chainId fromHeight toHeight d row,
    row ∈ SyncErrors (committed (fst (fetchHeadersWithRetry network chainId
                                        fromHeight toHeight d))) ->
    row ∈ SyncErrors (committed d) \/ se_id row ∉ ids0.

Local Abbreviation retryOne := (retryOne fetchHeadersWithRetry).
Local Abbreviation retryEach := (retryEach fetchHeadersWithRetry).
Local Abbreviation retryOutcomes := (retryOutcomes fetchHeadersWithRetry).

Lemma retryOutcomes_rows errors d :
  map fst (retryOutcomes errors d) = errors.
Proof.
  revert d. induction errors as [|error rest IH]; intros d; cbn; [done |].
  destruct (retryOne error d) as [d1 [err|]]; cbn; by rewrite IH.
Qed.

Lemma delete_elem (id : Z) (t : Tables) (row : SyncError) :
  row ∈ SyncErrors (delete id t) <-> row ∈ SyncErrors t /\ se_id row <> id.
Proof.
  unfold delete. cbn. rewrite list_elem_of_In, filter_In, <- list_elem_of_In.
  by rewrite negb_true_iff, Z.eqb_neq.
Qed.

Lemma succeededIds_cons (e : SyncError) (ok : bool)
  (outs : list (SyncError * bool)) :
  succeededIds ((e, ok) :: outs) =
  if ok then se_id e :: succeededIds outs else succeededIds outs.
Proof. unfold succeededIds. cbn. by destruct ok. Qed.

(** A row that was there and whose retry did not succeed is still there
    after the sweep. *)
Lemma retryEach_keeps errors w row :
  row ∈ SyncErrors (committed (db w)) ->
  se_id row ∉ succeededIds (retryOutcomes errors (db w)) ->
  row ∈ SyncErrors (committed (db (retryEach errors w))).
Proof.
  revert w. induction errors as [|error rest IH]; intros w Hrow Hnot; [done |].
  cbn [RetryErrors.retryEach RetryErrors.retryOutcomes] in *.
  pose proof (fetch_keeps_rows (se_network error) (se_chainId error)
                (se_fromHeight error) (se_toHeight error) (db w) row Hrow) as Hkeep.
  fold (retryOne error (db w)) in Hkeep.
  destruct (retryOne error (db w)) as [d1 [err|]]; cbn [fst] in Hkeep.
  - rewrite succeededIds_cons in Hnot. apply IH; [| done]. done.
  - rewrite succeededIds_cons in Hnot. apply not_elem_of_cons in Hnot as [Hne Hnot].
    apply IH; [| done]. cbn. apply delete_elem. done.
Qed.

(** A row found after the sweep was there before and its retry did not
    succeed, or it was added under an id not in use before. *)
Lemma retryEach_rows errors w row :
  row ∈ SyncErrors (committed (db (retryEach errors w))) ->
  (row ∈ SyncErrors (committed (db w)) /\
   se_id row ∉ succeededIds (retryOutcomes errors (db w))) \/
  se_id row ∉ ids0.
Proof.
  revert w. induction errors as [|error rest IH]; intros w Hrow.
  { left. split; [done |]. unfold succeededIds. cbn. apply not_elem_of_nil. }
  cbn [RetryErrors.retryEach RetryErrors.retryOutcomes] in *.
  pose proof (fetch_adds_fresh (se_network error) (se_chainId error)
                (se_fromHeight error) (se_toHeight error) (db w) row) as Hfresh.
  fold (retryOne error (db w)) in Hfresh.
  destruct (retryOne error (db w)) as [d1 [err|]]; cbn [fst] in Hfresh;
    apply IH in Hrow as [[Hrow Hnot] | Hnew]; try (by right);
    rewrite succeededIds_cons.
  - cbn in Hrow. destruct (Hfresh Hrow) as [Hold | Hnew]; [| by right].
    left. done.
  - cbn in Hrow. apply delete_elem in Hrow as [Hrow Hne].
    destruct (Hfresh Hrow) as [Hold | Hnew]; [| by right].
    left. split; [done |]. apply not_elem_of_cons. done.
Qed.

Lemma succeededIds_elem (outs : list (SyncError * bool)) (id : Z) :
  id ∈ succeededIds outs <-> exists e, (e, true) ∈ outs /\ se_id e = id.
Proof.
  unfold succeededIds. induction outs as [|[e ok] outs IH]; cbn.
  - split; [by intros ?%elem_of_nil | by intros (? & ?%elem_of_nil & _)].
  - destruct ok; cbn; rewrite ?elem_of_cons, IH; split.
    + intros [-> | (e' & Hin & Hid)].
      * exists e. split; [apply elem_of_cons; by left | done].
      * exists e'. split; [apply elem_of_cons; by right | done].
    + intros (e' & [Heq | Hin]%elem_of_cons & Hid).
      * inversion Heq; subst. by left.
      * right. by exists e'.
    + intros (e' & Hin & Hid). exists e'. split; [apply elem_of_cons; by right | done].
    + intros (e' & [Heq | Hin]%elem_of_cons & Hid); [discriminate |]. by exists e'.
Qed.

(** A row is swept once: with unique ids it has one outcome. *)
Lemma outcome_unique (outs : list (SyncError * bool)) e1 e2 ok1 ok2 :
  NoDup (map (fun o => se_id (fst o)) outs) ->
  (e1, ok1) ∈ outs -> (e2, ok2) ∈ outs -> se_id e1 = se_id e2 ->
  ok1 = ok2.
Proof.
  induction outs as [|[e ok] outs IH]; cbn; intros Hnd H1 H2 Hid.
  - by apply elem_of_nil in H1.
  - apply NoDup_cons in Hnd as [Hnotin Hnd].
    assert (Hin : forall e' ok', (e', ok') ∈ outs ->
                                 se_id e' ∈ map (fun o => se_id (fst o)) outs).
    { intros e' ok' H. apply list_elem_of_fmap. by exists (e', ok'). }
    apply elem_of_cons in H1 as [Heq1 | H1]; apply elem_of_cons in H2 as [Heq2 | H2].
    + congruence.
    + inversion Heq1; subst. exfalso. apply Hnotin. rewrite Hid. by eapply Hin.
    + inversion Heq2; subst. exfalso. apply Hnotin. rewrite <- Hid. by eapply Hin.
    + by apply IH.
Qed.

End Generic.

(** C6.  The sweep of [startRetryErrors] tries every row that [getErrors]
    returned, in order, whatever the outcome of the rows before it (a
    retry that throws is logged and the sweep moves on); after the sweep a
    row of it is gone from "SyncErrors" exactly when its retried fetch
    succeeded, that is, returned without throwing, and it is still there
    exactly when the retry threw; the rows the sweep did not select are
    all kept.  The ids of "SyncErrors" are unique.  The fetch may itself
    record errors, as the retry policy has it on exhaustion: it keeps the
    rows there are, and a row it adds carries an id that was not in use
    when the sweep started; such rows are the only ones the table gains. *)
Theorem retry_deletes_iff_fetch_succeeds
  (fetchHeadersWithRetry : string -> Z -> Z -> Z -> Database -> Database * option string)
  (network : string) (w : World) :
  (forall network chainId fromHeight toHeight d row,
      (row ∈ SyncErrors (committed d) ->
       row ∈ SyncErrors (committed (fst (fetchHeadersWithRetry network chainId
                                           fromHeight toHeight d)))) /\
      (row ∈ SyncErrors (committed (fst (fetchHeadersWithRetry network chainId
                                           fromHeight toHeight d))) ->
       row ∈ SyncErrors (committed d) \/
       se_id row ∉ map se_id (SyncErrors (committed (db w))))) ->
  NoDup (map se_id (SyncErrors (committed (db w)))) ->
  let errors := getErrors network SOURCE_API (committed (db w)) in
  let outcomes := retryOutcomes fetchHeadersWithRetry errors (db w) in
  let after := SyncErrors (committed (db (startRetryErrors fetchHeadersWithRetry network w))) in
  map fst outcomes = errors /\
  (forall error ok, (error, ok) ∈ outcomes ->
     (error ∉ after <-> ok = true) /\ (error ∈ after <-> ok = false)) /\
  (forall row, row ∈ SyncErrors (committed (db w)) -> row ∉ errors -> row ∈ after) /\
  (forall row, row ∈ after ->
     row ∈ SyncErrors (committed (db w)) \/
     se_id row ∉ map se_id (SyncErrors (committed (db w)))).
Proof.
  intros Hframe Hnd errors outcomes after.
  assert (Hkeep : forall network chainId fromHeight toHeight d row,
             row ∈ SyncErrors (committed d) ->
             row ∈ SyncErrors (committed (fst (fetchHeadersWithRetry network chainId
                                                 fromHeight toHeight d))))
    by (intros; by apply Hframe).
  assert (Hfresh : forall network chainId fromHeight toHeight d row,
             row ∈ SyncErrors (committed (fst (fetchHeadersWithRetry network chainId
                                                 fromHeight toHeight d))) ->
             row ∈ SyncErrors (committed d) \/
             se_id row ∉ map se_id (SyncErrors (committed (db w))))
    by (intros; by eapply Hframe).
  assert (Hrows : map fst outcomes = errors) by apply retryOutcomes_rows.
  assert (Hkept : forall row,
             row ∈ SyncErrors (committed (db w)) ->
             se_id row ∉ succeededIds outcomes -> row ∈ after).
  { intros row Hrow Hnot. subst after. unfold startRetryErrors.
    by apply (retryEach_keeps _ Hkeep). }
  assert (Hafter : forall row, row ∈ after ->
             (row ∈ SyncErrors (committed (db w)) /\
              se_id row ∉ succeededIds outcomes) \/
             se_id row ∉ map se_id (SyncErrors (committed (db w)))).
  { intros row Hrow. subst after. unfold startRetryErrors in Hrow.
    by apply (retryEach_rows _ _ Hfresh) in Hrow. }
  assert (Hsub : forall e, e ∈ errors -> e ∈ SyncErrors (committed (db w))).
  { intros e He. subst errors. unfold getErrors in He.
    apply list_elem_of_In, filter_In in He as [He _]. by apply list_elem_of_In. }
  assert (Hnd' : NoDup (map (fun o => se_id (fst o)) outcomes)).
  { replace (map (fun o => se_id (fst o)) outcomes)
      with (map se_id (map fst outcomes)) by (by rewrite map_map).
    rewrite Hrows. subst errors. unfold getErrors.
    clear -Hnd. induction (SyncErrors (committed (db w))) as [|e l IH]; cbn; [constructor |].
    cbn in Hnd. apply NoDup_cons in Hnd as [Hnotin Hnd].
    destruct (_ && _); [| by apply IH]. cbn. apply NoDup_cons. split; [| by apply IH].
    intros Hin. apply Hnotin. apply list_elem_of_fmap in Hin as (e' & -> & Hin).
    apply list_elem_of_fmap. exists e'. split; [done |].
    apply list_elem_of_In, filter_In in Hin as [Hin _]. by apply list_elem_of_In. }
  assert (Hgone : forall error, (error, true) ∈ outcomes -> error ∉ after).
  { intros error Hin Hstill.
    assert (Herr : error ∈ SyncErrors (committed (db w))).
    { apply Hsub. rewrite <- Hrows. apply list_elem_of_fmap. by exists (error, true). }
    destruct (Hafter _ Hstill) as [[_ Hnot] | Hnew].
    - apply Hnot, succeededIds_elem. by exists error.
    - apply Hnew, list_elem_of_fmap. by exists error. }
  assert (Hstays : forall error, (error, false) ∈ outcomes -> error ∈ after).
  { intros error Hin.
    apply Hkept.
    - apply Hsub. rewrite <- Hrows. apply list_elem_of_fmap. by exists (error, false).
    - intros (e' & Hin' & Hid)%succeededIds_elem.
      by pose proof (outcome_unique _ _ _ _ _ Hnd' Hin' Hin Hid). }
  split; [exact Hrows |]. split; [| split].
  - intros error ok Hin. destruct ok; split; split; try done.
    + intros _. by apply Hgone.
    + intros Hstill. by apply Hgone in Hstill.
    + intros Hnot. exfalso. by apply Hnot, Hstays.
    + intros _. by apply Hstays.
  - intros row Hrow Hnot. apply Hkept; [done |].
    intros (e' & Hin' & Hid)%succeededIds_elem.
    assert (He' : e' ∈ errors).
    { rewrite <- Hrows. apply list_elem_of_fmap. by exists (e', true). }
    assert (e' = row); [| by subst].
    pose proof (Hsub _ He') as He'in.
    clear -Hnd Hrow He'in Hid.
    induction (SyncErrors (committed (db w))) as [|e l IH]; [by apply elem_of_nil in Hrow |].
    cbn in Hnd. apply NoDup_cons in Hnd as [Hnotin Hnd].
    apply elem_of_cons in Hrow as [-> | Hrow];
      apply elem_of_cons in He'in as [-> | He'in]; auto.
    + exfalso. apply Hnotin. rewrite <- Hid. by apply list_elem_of_fmap_2.
    + exfalso. apply Hnotin. rewrite Hid. by apply list_elem_of_fmap_2.
  - intros row Hrow. destruct (Hafter _ Hrow) as [[Hold _] | Hnew]; [by left | by right].
Qed.

Lemma demoNextErrorId_fresh (rows : list SyncError) :
  100 < demoNextErrorId rows.
Proof.
  unfold demoNextErrorId.
  assert (forall l a, a <= fold_left Z.max l a) as Hle.
  { induction l as [|x l IH]; intros a; cbn; [lia |].
    specialize (IH (Z.max a x)). lia. }
  specialize (Hle (map se_id rows) 100). lia.
Qed.

(** The exhausting fetch keeps the rows there are and adds rows under
    ids above 100 only. *)
Lemma demoExhaustingFetch_frame network chainId fromHeight toHeight d row :
  (row ∈ SyncErrors (committed d) ->
   row ∈ SyncErrors (committed (fst (demoExhaustingFetch network chainId
                                       fromHeight toHeight d)))) /\
  (row ∈ SyncErrors (committed (fst (demoExhaustingFetch network chainId
                                       fromHeight toHeight d))) ->
   row ∈ SyncErrors (committed d) \/
   se_id row ∉ map se_id (SyncErrors (committed (db demoSweepWorld)))).
Proof.
  assert (forall t, row ∈ SyncErrors (demoRecordError network chainId
                                        fromHeight toHeight t) ->
                    row ∈ SyncErrors t \/
                    se_id row ∉ map se_id (SyncErrors (committed (db demoSweepWorld))))
    as Hrec.
  { intros t Hin. unfold demoRecordError in Hin. cbn in Hin.
    apply elem_of_app in Hin as [Hin | Hin]; [by left | right].
    apply list_elem_of_singleton in Hin. subst row. cbn.
    pose proof (demoNextErrorId_fresh (SyncErrors t)) as Hlt.
    intros Hin.
    repeat (apply elem_of_cons in Hin as [Hin | Hin]; [lia |]).
    by apply elem_of_nil in Hin. }
  unfold demoExhaustingFetch.
  destruct (Z.eqb fromHeight 200); [| destruct (Z.eqb fromHeight 300)]; cbn;
    (split; [intros Hin | intros Hin]);
    try (by apply Hrec); try (by left);
    try (unfold demoRecordError; cbn; apply elem_of_app; by left); done.
Qed.

(** C6 at a sweep over three API rows: the retry of the first throws
    after recording the range anew, the retry of the second records an
    error and returns, the retry of the last fetches its block. *)
Lemma retry_deletes_iff_fetch_succeeds_witness :
  let after := SyncErrors (committed
                 (db (startRetryErrors demoExhaustingFetch "mainnet01"
                        demoSweepWorld))) in
  (mkSyncError 1 "mainnet01" 0 200 210 SOURCE_API ∈ after) /\
  (mkSyncError 2 "mainnet01" 3 300 310 SOURCE_API ∉ after) /\
  (mkSyncError 4 "mainnet01" 5 500 510 SOURCE_API ∉ after) /\
  (mkSyncError 3 "mainnet01" 3 400 410 SOURCE_STREAMING ∈ after) /\
  map se_id after = [1; 3; 101; 102].
Proof.
  intros after.
  pose proof (retry_deletes_iff_fetch_succeeds demoExhaustingFetch "mainnet01"
                demoSweepWorld demoExhaustingFetch_frame) as H.
  assert (Hnd : NoDup (map se_id (SyncErrors (committed (db demoSweepWorld))))).
  { vm_compute. repeat constructor; intros Hin;
      repeat (apply elem_of_cons in Hin as [Hin | Hin]; [discriminate |]);
      by apply elem_of_nil in Hin. }
  specialize (H Hnd). cbv zeta in H. destruct H as (_ & Hiff & Hkept & _).
  split; [| split; [| split; [| split]]].
  - apply (Hiff _ false); [| reflexivity].
    vm_compute. apply elem_of_cons. by left.
  - apply (Hiff _ true); [| reflexivity].
    vm_compute. apply elem_of_cons. right. apply elem_of_cons. by left.
  - apply (Hiff _ true); [| reflexivity].
    vm_compute. do 2 (apply elem_of_cons; right). apply elem_of_cons. by left.
  - apply Hkept.
    + vm_compute. do 2 (apply elem_of_cons; right). apply elem_of_cons. by left.
    + vm_compute. intros Hin.
      repeat (apply elem_of_cons in Hin as [Hin | Hin]; [discriminate |]).
      by apply elem_of_nil in Hin.
  - reflexivity.
Defined.

End RetrySweep.

(* --------------------------------------------------------------------- *)
(** ** The guards reconciler                                              *)
(* --------------------------------------------------------------------- *)

Section GuardsReconciler.

Import GuardsBackfill.

Example demoBackfill :
  exists w,
    backfillGuards demoGetGuards demoBulkError 4 (demoGuardsWorld demoBalances)
      = Some (Returned w) /\
    map g_account (Guards (committed (db w))) = ["k:alice"; "k:bob"; "k:carol"] /\
    txHistory (db w) = [Committed].
Proof. eexists. vm_compute. repeat split; reflexivity. Qed.

(** 1001 balances: a full first batch, and a second batch of one row whose
    guard the database refuses.  The first batch stays committed. *)
Example demoBackfill_partial :
  exists w,
    backfillGuards demoGetGuards demoBulkError 1002
      (demoGuardsWorld (manyBalances 1001 "k:nokeys")) = Some (Returned w) /\
    length (Guards (committed (db w))) = 1000%nat /\
    txHistory (db w) = [Committed; RolledBack].
Proof. eexists. vm_compute. repeat split; reflexivity. Qed.

(** The same table when the node does not know the last account: the
    fetch of the second batch throws and the run is rejected. *)
Example demoBackfill_rejected :
  exists w,
    backfillGuards demoGetGuards demoBulkError 1002
      (demoGuardsWorld (manyBalances 1001 "k:unknown"))
      = Some (Rejected "node: row not found" w) /\
    length (Guards (committed (db w))) = 1000%nat /\
    txHistory (db w) = [Committed].
Proof. eexists. vm_compute. repeat split; reflexivity. Qed.

Local Instance id_le_trans : Transitive id_le.
Proof. intros a b c. unfold id_le. lia. Qed.

Local Instance id_le_total : Total id_le.
Proof. intros a b. unfold id_le. lia. Qed.

Section Select.

Variables (n : nat) (c : Z) (balances : list Balance).

Local Abbreviation candidates :=
  (merge_sort id_le (filter (fun b => c < bal_id b) balances)).

Lemma candidates_sorted : StronglySorted id_le candidates.
Proof. apply StronglySorted_merge_sort; apply _. Qed.

Lemma candidates_perm : candidates ≡ₚ filter (fun b => c < bal_id b) balances.
Proof. apply merge_sort_Permutation. Qed.

Lemma selectBalances_split :
  selectBalances n c balances ++ drop n candidates = candidates.
Proof. apply take_drop. Qed.

Lemma selectBalances_sorted : StronglySorted id_le (selectBalances n c balances).
Proof.
  pose proof candidates_sorted as Hs. rewrite <- selectBalances_split in Hs.
  by apply StronglySorted_app_1_l in Hs.
Qed.

Lemma selectBalances_elem r :
  r ∈ selectBalances n c balances -> c < bal_id r /\ r ∈ balances.
Proof.
  intros Hr. apply subseteq_take in Hr. rewrite candidates_perm in Hr.
  by apply list_elem_of_filter in Hr.
Qed.

Lemma selectBalances_length : (length (selectBalances n c balances) <= n)%nat.
Proof. unfold selectBalances. rewrite length_take. lia. Qed.

(** The last row of a batch has the greatest id of the batch ... *)
Lemma selectBalances_last_max r x :
  last (selectBalances n c balances) = Some r ->
  x ∈ selectBalances n c balances -> bal_id x <= bal_id r.
Proof.
  intros Hlast Hx. pose proof selectBalances_sorted as Hs.
  apply last_Some in Hlast as [l' Hl']. rewrite Hl' in Hs, Hx.
  apply elem_of_app in Hx as [Hx | Hx].
  - eapply (StronglySorted_app_1_elem_of id_le); [exact Hs | exact Hx |].
    apply list_elem_of_singleton. reflexivity.
  - apply list_elem_of_singleton in Hx as ->. lia.
Qed.

(** ... and the rows left for later batches do not come before it. *)
Lemma selectBalances_rest_ge r y :
  last (selectBalances n c balances) = Some r ->
  y ∈ drop n candidates -> bal_id r <= bal_id y.
Proof.
  intros Hlast Hy. pose proof candidates_sorted as Hs.
  rewrite <- selectBalances_split in Hs.
  eapply (StronglySorted_app_1_elem_of id_le); [exact Hs | | exact Hy].
  by apply last_Some_elem_of.
Qed.

(** Each batch makes the set of rows still to be read smaller. *)
Lemma selectBalances_progress r :
  last (selectBalances n c balances) = Some r ->
  (length (filter (fun b => (bal_id r < bal_id b)%Z) balances)
   < length (filter (fun b => (c < bal_id b)%Z) balances))%nat.
Proof.
  intros Hlast. apply last_Some_elem_of, selectBalances_elem in Hlast as [Hc Hin].
  rewrite <- (list_filter_filter_l (fun b => bal_id r < bal_id b)
                                   (fun b => c < bal_id b)) by (intros; lia).
  apply (length_filter_lt _ _ r); [| lia].
  by apply list_elem_of_filter.
Qed.

End Select.

Lemma filter_none {A} (P : A -> Prop) `{!forall x, Decision (P x)} (l : list A) :
  (forall x, x ∈ l -> ~ P x) -> filter P l = [].
Proof.
  induction l as [|x l IH]; intros Hno; [done |].
  rewrite filter_cons_False by (apply Hno, elem_of_cons; by left).
  apply IH. intros y Hy. apply Hno, elem_of_cons. by right.
Qed.

Lemma filter_every {A} (P : A -> Prop) `{!forall x, Decision (P x)} (l : list A) :
  (forall x, x ∈ l -> P x) -> filter P l = l.
Proof.
  induction l as [|x l IH]; intros Hall; [done |].
  rewrite filter_cons_True by (apply Hall, elem_of_cons; by left).
  f_equal. apply IH. intros y Hy. apply Hall, elem_of_cons. by right.
Qed.

Lemma NoDup_ids_filter (P : Balance -> Prop) `{!forall x, Decision (P x)}
  (l : list Balance) :
  NoDup (map bal_id l) -> NoDup (map bal_id (filter P l)).
Proof.
  induction l as [|x l IH]; intros Hnd; [constructor |].
  cbn in Hnd. apply NoDup_cons in Hnd as [Hnotin Hnd].
  destruct (decide (P x)) as [Hx | Hx].
  - rewrite filter_cons_True by done. cbn. apply NoDup_cons. split; [| by apply IH].
    intros Hin. apply Hnotin.
    apply list_elem_of_fmap in Hin as (y & -> & Hy).
    apply list_elem_of_filter in Hy as [_ Hy]. by apply list_elem_of_fmap_2.
  - rewrite filter_cons_False by done. by apply IH.
Qed.

Lemma batches_sizes fuel c balances :
  Forall (fun rows => (0 < length rows <= limit)%nat) (batches fuel c balances).
Proof.
  revert c. induction fuel as [|fuel IH]; intros c; cbn [batches]; [constructor |].
  destruct (last (selectBalances limit c balances)) as [r|] eqn:Hlast; [| constructor].
  constructor; [| apply IH]. split; [| apply selectBalances_length].
  apply last_Some in Hlast as [l' ->]. rewrite length_app. cbn. lia.
Qed.

(** The batches are in ascending id order, within and across batches, and
    hold rows of the table with ids above the starting id. *)
Lemma batches_sorted fuel c balances :
  StronglySorted id_le (concat (batches fuel c balances)) /\
  Forall (fun b => c < bal_id b /\ b ∈ balances) (concat (batches fuel c balances)).
Proof.
  revert c. induction fuel as [|fuel IH]; intros c; cbn [batches];
    [split; constructor |].
  destruct (last (selectBalances limit c balances)) as [r|] eqn:Hlast;
    [| split; constructor].
  destruct (IH (bal_id r)) as [Hs Hall]. cbn [concat].
  pose proof (last_Some_elem_of _ _ Hlast) as Hr.
  apply selectBalances_elem in Hr as [Hcr _].
  rewrite Forall_forall in Hall. split.
  - apply StronglySorted_app_2; [| apply selectBalances_sorted | exact Hs].
    intros x1 x2 H1 H2. unfold id_le.
    pose proof (selectBalances_last_max _ _ _ _ _ Hlast H1).
    destruct (Hall _ H2). lia.
  - apply Forall_app. split; rewrite Forall_forall.
    + intros x Hx. by apply selectBalances_elem in Hx.
    + intros x Hx. destruct (Hall _ Hx). split; [lia | done].
Qed.

(** With unique ids no row is skipped: the batches are, together, the rows
    with an id above the starting id. *)
Lemma batches_complete fuel c balances :
  NoDup (map bal_id balances) ->
  (length (filter (fun b => (c < bal_id b)%Z) balances) < fuel)%nat ->
  concat (batches fuel c balances) ≡ₚ filter (fun b => c < bal_id b) balances.
Proof.
  intros Hnd. revert c. induction fuel as [|fuel IH]; intros c Hfuel; [lia |].
  cbn [batches].
  set (S0 := merge_sort id_le (filter (fun b => c < bal_id b) balances)).
  pose proof (candidates_perm c balances) as Hperm. fold S0 in Hperm.
  pose proof (selectBalances_split limit c balances) as Hsplit. fold S0 in Hsplit.
  destruct (last (selectBalances limit c balances)) as [r|] eqn:Hlast.
  - cbn [concat].
    pose proof (selectBalances_progress _ _ _ _ Hlast) as Hprog.
    rewrite (IH (bal_id r)) by lia.
    rewrite <- Hperm, <- Hsplit. apply Permutation_app_head.
    pose proof (last_Some_elem_of _ _ Hlast) as Hr.
    pose proof (selectBalances_elem _ _ _ _ Hr) as [Hcr _].
    rewrite <- (list_filter_filter_l (fun b => bal_id r < bal_id b)
                                     (fun b => c < bal_id b)) by (intros; lia).
    rewrite <- Hperm.
    enough (Hf : filter (fun b => bal_id r < bal_id b) S0 = drop limit S0)
      by (by rewrite Hf).
    rewrite <- Hsplit at 1. rewrite filter_app.
    rewrite filter_none, filter_every; [done | |].
    + intros y Hy.
      pose proof (selectBalances_rest_ge _ _ _ _ _ Hlast Hy) as Hge.
      assert (Hne : bal_id r <> bal_id y); [| lia].
      assert (Hnd' : NoDup (map bal_id S0)).
      { rewrite Hperm. by apply NoDup_ids_filter. }
      rewrite <- Hsplit, map_app in Hnd'.
      apply NoDup_app in Hnd' as (_ & Hdisj & _).
      intros Heq. apply (Hdisj (bal_id r)); [by apply list_elem_of_fmap_2 |].
      rewrite Heq. by apply list_elem_of_fmap_2.
    + intros x Hx. pose proof (selectBalances_last_max _ _ _ _ _ Hlast Hx). lia.
  - cbn [concat]. apply last_None in Hlast.
    unfold selectBalances in Hlast. fold S0 in Hlast.
    apply take_nil_inv in Hlast as [Hl | Hl]; [discriminate |].
    by rewrite <- Hperm, Hl.
Qed.

Section Generic.

Variable getGuardsFromBalances : list Balance -> Result (list Guard).
Variable bulkCreate_error : list Guard -> Tables -> option string.

Local Abbreviation fetchGuards := (fetchGuards getGuardsFromBalances).
Local Abbreviation guardsOf := (guardsOf getGuardsFromBalances).
Local Abbreviation guardsLoop :=
  (guardsLoop getGuardsFromBalances bulkCreate_error).
Local Abbreviation backfillGuards :=
  (backfillGuards getGuardsFromBalances bulkCreate_error).
Local Abbreviation endedAfter := (endedAfter getGuardsFromBalances).

Lemma guardsLoop_spec fuel c w ex :
  guardsLoop fuel c w = Some ex ->
  exists k,
    (k <= length (batches fuel c (Balances (committed (db w)))))%nat /\
    Balances (committed (db (exitWorld ex))) = Balances (committed (db w)) /\
    Guards (committed (db (exitWorld ex))) =
      Guards (committed (db w)) ++
      flat_map guardsOf (take k (batches fuel c (Balances (committed (db w))))) /\
    endedAfter k (batches fuel c (Balances (committed (db w))))
               (txHistory (db w)) ex.
Proof.
  revert c w ex. induction fuel as [|fuel IH]; intros c w ex Hrun; [discriminate |].
  cbn [GuardsBackfill.guardsLoop batches] in *.
  cbn [log db committed] in Hrun.
  set (rows := selectBalances limit c (Balances (committed (db w)))) in *.
  destruct (last rows) as [r|] eqn:Hlast.
  2:{ apply last_None in Hlast. rewrite Hlast in Hrun. cbn in Hrun.
      inversion Hrun; subst ex. exists 0%nat. cbn.
      rewrite !app_nil_r. repeat split; try done. by left. }
  assert (Hlen : Nat.eqb (length rows) 0 = false).
  { apply Nat.eqb_neq. apply last_Some in Hlast as [l' ->].
    rewrite length_app. cbn. lia. }
  rewrite Hlen in Hrun. cbn [fmap option_fmap option_map default] in Hrun.
  destruct (fetchGuards rows) as [guards|e] eqn:Hfetch.
  2:{ inversion Hrun; subst ex. exists 0%nat. cbn.
      rewrite !app_nil_r. repeat split; try done; [lia |]. by exists rows. }
  unfold Guard_bulkCreate in Hrun.
  destruct (bulkCreate_error guards (committed (db w))) as [e|] eqn:Hbulk.
  { inversion Hrun; subst ex. exists 0%nat. cbn.
    rewrite !app_nil_r. repeat split; try done; [lia |]. right. by exists rows, guards. }
  apply IH in Hrun as (k & Hk & Hbal & Hg & Hend). cbn in Hk, Hbal, Hg, Hend.
  exists (S k). cbn [length take flat_map].
  split; [lia |]. split; [exact Hbal |]. split.
  { rewrite Hg. unfold GuardsBackfill.guardsOf at 2. rewrite Hfetch.
    by rewrite app_assoc. }
  unfold endedAfter in *. destruct ex as [w'|e w'].
  - destruct Hend as [[-> Htx] | (rows' & guards' & Hrows & Hf & Htx)].
    + left. split; [done |]. rewrite Htx. cbn. by rewrite <- app_assoc.
    + right. exists rows', guards'. repeat split; [done | done |].
      rewrite Htx. cbn. by rewrite <- !app_assoc.
  - destruct Hend as (rows' & Hrows & Hf & Htx). exists rows'.
    repeat split; [done | done |]. rewrite Htx. cbn. by rewrite <- app_assoc.
Qed.

(** The loop ends: one more batch than there are rows is always enough. *)
Lemma guardsLoop_terminates fuel c w :
  (length (filter (fun b => (c < bal_id b)%Z) (Balances (committed (db w)))) < fuel)%nat ->
  exists ex, guardsLoop fuel c w = Some ex.
Proof.
  revert c w. induction fuel as [|fuel IH]; intros c w Hfuel; [lia |].
  cbn [GuardsBackfill.guardsLoop]. cbn [log db committed].
  set (rows := selectBalances limit c (Balances (committed (db w)))) in *.
  destruct (Nat.eqb (length rows) 0) eqn:Hlen; [by eexists |].
  destruct (fetchGuards rows) as [guards|e]; [| by eexists].
  unfold Guard_bulkCreate.
  destruct (bulkCreate_error guards (committed (db w))) as [e|]; [by eexists |].
  destruct (last rows) as [r|] eqn:Hlast.
  2:{ apply last_None in Hlast. rewrite Hlast in Hlen. discriminate. }
  cbn [fmap option_fmap option_map default].
  apply IH. cbn.
  pose proof (selectBalances_progress _ _ _ _ Hlast). lia.
Qed.

End Generic.



End GuardsReconciler.

(* --------------------------------------------------------------------- *)
(** ** The tip streamer: what a block leaves behind                       *)
(* --------------------------------------------------------------------- *)

Section StreamerFacts.

Import Streaming.

Lemma uniqueFrom_spec (seen xs : list string) :
  NoDup (uniqueFrom seen xs) /\
  (forall x, x ∈ uniqueFrom seen xs <-> x ∈ xs /\ x ∉ seen).
Proof.
  revert seen. induction xs as [|y xs IH]; intros seen; cbn.
  - split; [constructor |]. intros x. rewrite elem_of_nil. tauto.
  - case_bool_decide as Hy.
    + destruct (IH seen) as [Hnd Hin]. split; [exact Hnd |].
      intros x. rewrite Hin, elem_of_cons. split; [tauto |].
      intros [[-> | Hx] Hns]; [contradiction | tauto].
    + destruct (IH (y :: seen)) as [Hnd Hin]. split.
      * apply NoDup_cons. split; [| exact Hnd].
        rewrite Hin, elem_of_cons. tauto.
      * intros x. rewrite !elem_of_cons, Hin, elem_of_cons.
        destruct (decide (x = y)) as [-> | Hne]; tauto.
Qed.

Lemma unique_spec (xs : list string) :
  NoDup (unique xs) /\ (forall x, x ∈ unique xs <-> x ∈ xs).
Proof.
  destruct (uniqueFrom_spec [] xs) as [Hnd Hin]. split; [exact Hnd |].
  intros x. unfold unique. rewrite Hin, elem_of_nil. tauto.
Qed.

Lemma filterBoolean_spec (xs : list string) (x : string) :
  x ∈ filterBoolean xs <-> x <> EmptyString /\ x ∈ xs.
Proof.
  unfold filterBoolean. rewrite list_elem_of_In, filter_In, <- list_elem_of_In.
  rewrite negb_true_iff, String.eqb_neq. tauto.
Qed.

End StreamerFacts.

Section DispatchLists.

Import Streaming.

Variable JSON_parse : string -> Result RawBlock.
Variable getDecoded : string -> Result Json.
Variable processPayloadKey :
  Block -> PayloadData -> Tables -> Result (list Event * Tables).

Lemma qualified_nonempty (m n : string) : m +:+ "." +:+ n <> EmptyString.
Proof. destruct m; discriminate. Qed.

(** X1.  The DispatchInfo of a committed [saveBlock] lists every non-empty
    request key of the events created exactly once, and every qualified
    event name `module.name` exactly once. *)
Theorem saveBlock_dispatch_lists_are_sets
  (headerData : Header) (payloadData : PayloadData) (tx tx' : Tables)
  (info : DispatchInfo) :
  saveBlock_try processPayloadKey headerData payloadData tx = Ok (info, tx') ->
  exists createdBlock tx1 eventsCreated,
    Block_create (blockAttribute headerData payloadData) tx = Ok (createdBlock, tx1) /\
    processPayloadKey createdBlock payloadData tx1 = Ok (eventsCreated, tx') /\
    NoDup (d_requestKeys info) /\
    (forall k, k ∈ d_requestKeys info <->
               k <> EmptyString /\ exists e, e ∈ eventsCreated /\ e_requestkey e = k) /\
    NoDup (d_qualifiedEventNames info) /\
    (forall n, n ∈ d_qualifiedEventNames info <->
               exists e, e ∈ eventsCreated /\ n = e_module e +:+ "." +:+ e_name e).
Proof.
  unfold saveBlock_try.
  destruct (Block_create _ tx) as [[createdBlock tx1]|] eqn:Hc; [| discriminate].
  destruct (processPayloadKey createdBlock payloadData tx1)
    as [[eventsCreated tx2]|] eqn:Hp; [| discriminate].
  intros H; inversion H; subst; clear H. cbn.
  exists createdBlock, tx1, eventsCreated.
  split; [reflexivity |]. split; [exact Hp |].
  split; [apply unique_spec |]. split; [| split; [apply unique_spec |]].
  - intros k. destruct (unique_spec (filterBoolean (map e_requestkey eventsCreated)))
      as [_ Hin].
    rewrite Hin, filterBoolean_spec, list_elem_of_fmap.
    split; intros [Hk (e & He1 & He2)]; (split; [exact Hk |]); exists e; auto.
  - intros n.
    destruct (unique_spec
                (filterBoolean
                   (map (fun t => e_module t +:+ "." +:+ e_name t) eventsCreated)))
      as [_ Hin].
    rewrite Hin, filterBoolean_spec, list_elem_of_fmap. split.
    + intros [_ (e & -> & He)]. by exists e.
    + intros (e & He & ->). split; [apply qualified_nonempty | by exists e].
Qed.

End DispatchLists.
Section BlockRoundTrip.

Import Streaming.

Lemma saveBlock_dispatch_lists_are_sets_witness :
  saveBlock_try demoEventsPayloadKey (demoHeader "H") demoPayload emptyTables
    = Ok (demoEventsInfo, demoEventsTables) /\
  NoDup (d_requestKeys demoEventsInfo) /\
  NoDup (d_qualifiedEventNames demoEventsInfo).
Proof.
  split; [vm_compute; reflexivity |].
  destruct (saveBlock_dispatch_lists_are_sets demoEventsPayloadKey
              (demoHeader "H") demoPayload emptyTables demoEventsTables
              demoEventsInfo ltac:(vm_compute; reflexivity))
    as (_ & _ & _ & _ & _ & Hk & _ & Hn & _).
  split; assumption.
Defined.

Variable JSON_parse : string -> Result RawBlock.
Variable getDecoded : string -> Result Json.
Variable processPayloadKey :
  Block -> PayloadData -> Tables -> Result (list Event * Tables).

Lemma find_app_fresh (hash : string) (bs : list Block) (b : Block) :
  existsb (fun x => String.eqb (b_hash x) hash) bs = false ->
  b_hash b = hash ->
  List.find (fun x => String.eqb (b_hash x) hash) (bs ++ [b]) = Some b.
Proof.
  intros Hex Hb. induction bs as [|x bs IH]; cbn in *.
  - by rewrite Hb, String.eqb_refl.
  - destruct (String.eqb (b_hash x) hash); [discriminate | by apply IH].
Qed.

(** X2.  Once [saveBlock] has committed, [getBlockByHash] finds the block
    under the hash of the header: it carries the height and chain of the
    header, the number of payload transactions as [transactionsCount],
    and a [featureFlags] value that reads back as the unsigned value
    received; the DispatchInfo names this row. *)
Theorem saveBlock_then_getBlockByHash
  (headerData : Header) (payloadData : PayloadData) (w : World)
  (info : DispatchInfo) :
  (forall b p t evs t',
      processPayloadKey b p t = Ok (evs, t') -> Blocks t' = Blocks t) ->
  0 <= h_featureFlags headerData < 2 ^ 64 ->
  fst (saveBlock processPayloadKey headerData payloadData w) = Some info ->
  exists block,
    BlockRepository.getBlockByHash
      (committed (db (snd (saveBlock processPayloadKey headerData payloadData w))))
      (h_hash headerData) = Ok block /\
    b_hash block = h_hash headerData /\
    b_height block = h_height headerData /\
    b_chainId block = h_chainId headerData /\
    b_parent block = h_parent headerData /\
    IntUint64.int64ToUint64 (b_featureFlags block) = h_featureFlags headerData /\
    b_transactionsCount block =
      Some (Z.of_nat (length (pd_transactions payloadData))) /\
    d_hash info = b_hash block /\
    d_height info = b_height block /\
    d_chainId info = pretty (b_chainId block) /\
    BlockRepository.getBlockByHash (committed (db w)) (h_hash headerData)
      = Throw "Block not found.".
Proof.
  intros Hkeep Hff. unfold saveBlock, saveBlock_try, Block_create.
  cbn [b_hash blockAttribute].
  destruct (existsb _ _) eqn:Hex; [discriminate |].
  destruct (processPayloadKey _ _ _) as [[evs tx2]|] eqn:Hpk; [| discriminate].
  cbn. intros Hinfo. inversion Hinfo; subst info; clear Hinfo. cbn.
  eexists. unfold BlockRepository.getBlockByHash, BlockDbRepository.findOne_by_hash.
  rewrite (Hkeep _ _ _ _ _ Hpk). cbn [Blocks with_Blocks].
  rewrite (find_app_fresh (h_hash headerData) _
             (blockAttribute headerData payloadData
                (nextBlockId (Blocks (committed (db w))))) Hex eq_refl).
  repeat split.
  - cbn. by destruct (featureFlags_roundtrip _ Hff).
  - destruct (List.find _ (Blocks (committed (db w)))) as [b|] eqn:Hf; [| done].
    apply find_some in Hf as [Hin Heq].
    assert (existsb (fun b => String.eqb (b_hash b) (h_hash headerData))
                    (Blocks (committed (db w))) = true); [| congruence].
    apply existsb_exists. by exists b.
Qed.

Lemma onBlockHeader_undecodable data s e :
  JSON_parse data = Throw e \/
  (exists block, JSON_parse data = Ok block /\
                 processPayload getDecoded (rb_payloadWithOutputs block) = Throw e) ->
  onBlockHeader JSON_parse getDecoded processPayloadKey data s =
  mkStreamState (log e (st_world s)) (blocksAlreadyReceived s).
Proof.
  unfold onBlockHeader. intros [Hp | (block & Hp & Hd)]; rewrite Hp; [done |].
  by rewrite Hd.
Qed.

(** X3.  A `BlockHeader` message that does not parse, or whose payload does
    not decode, leaves one console line and nothing else: no transaction
    is opened, the tables are untouched (no "StreamingErrors" row), and
    the hash is not remembered, so the same block delivered again in a
    decodable form is materialised. *)
Theorem undecodable_block_leaves_no_trace
  (data data' : string) (e : string) (block' : RawBlock) (payload' : PayloadData)
  (s : StreamState) :
  (JSON_parse data = Throw e \/
   exists block, JSON_parse data = Ok block /\
                 processPayload getDecoded (rb_payloadWithOutputs block) = Throw e) ->
  JSON_parse data' = Ok block' ->
  processPayload getDecoded (rb_payloadWithOutputs block') = Ok payload' ->
  h_hash (rb_header block') ∉ blocksAlreadyReceived s ->
  let handle := handle JSON_parse getDecoded processPayloadKey in
  let s1 := handle (BlockHeader data) s in
  db (st_world s1) = db (st_world s) /\
  bus (st_world s1) = bus (st_world s) /\
  console (st_world s1) = console (st_world s) ++ [e] /\
  blocksAlreadyReceived s1 = blocksAlreadyReceived s /\
  length (txHistory (db (st_world (handle (BlockHeader data') s1)))) =
    S (length (txHistory (db (st_world s)))).
Proof.
  intros Hbad Hp' Hd' Hnew handle s1.
  assert (Hs1 : s1 = mkStreamState (log e (st_world s)) (blocksAlreadyReceived s)).
  { subst s1 handle. cbn. by apply onBlockHeader_undecodable. }
  rewrite Hs1. cbn [st_world blocksAlreadyReceived log db bus console].
  repeat split. subst handle. cbn [Streaming.handle].
  rewrite (onBlockHeader_new _ _ _ _ _ _ _ Hp' Hd') by exact Hnew.
  cbn [st_world].
  pose proof (saveBlock_one_transaction processPayloadKey (rb_header block') payload'
                (log e (st_world s))) as Htx.
  destruct (fst (saveBlock _ _ _ _)); cbn; rewrite Htx, length_app; cbn; lia.
Qed.

End BlockRoundTrip.
Section StreamInvariants.

Import Streaming.

Lemma saveBlock_then_getBlockByHash_witness :
  exists block,
    BlockRepository.getBlockByHash
      (committed (db (snd (saveBlock demoProcessPayloadKey (demoHeader "H")
                             demoPayload emptyWorld)))) "H" = Ok block /\
    b_height block = 10 /\
    b_transactionsCount block = Some 0.
Proof.
  destruct (saveBlock_then_getBlockByHash demoProcessPayloadKey
              (demoHeader "H") demoPayload emptyWorld (demoInfoOf "H")
              demoProcessPayloadKey_keeps_Blocks)
    as (block & Hget & _ & Hh & _ & _ & _ & Hc & _);
    [cbn; lia | vm_compute; reflexivity |].
  exists block. repeat split; assumption.
Defined.

Lemma undecodable_block_leaves_no_trace_witness :
  let s1 := demoHandle (BlockHeader "garbage") demoStart in
  db (st_world s1) = db (st_world demoStart) /\
  blocksAlreadyReceived s1 = blocksAlreadyReceived demoStart /\
  console (st_world s1) = ["SyntaxError: Unexpected token"].
Proof.
  intros s1.
  pose proof (undecodable_block_leaves_no_trace demoParse demoDecoded
                demoProcessPayloadKey "garbage" "H" "SyntaxError: Unexpected token"
                (demoBlock "H") demoPayload demoStart
                (or_introl eq_refl) eq_refl eq_refl) as H.
  assert (Hnew : "H" ∉ blocksAlreadyReceived demoStart).
  { intros Hin. vm_compute in Hin. inversion Hin. }
  specialize (H Hnew). cbv zeta in H.
  destruct H as (Hdb & _ & Hcon & Hset & _).
  repeat split; assumption.
Defined.

Variable JSON_parse : string -> Result RawBlock.
Variable getDecoded : string -> Result Json.
Variable processPayloadKey :
  Block -> PayloadData -> Tables -> Result (list Event * Tables).

Lemma decodeTransactions_Ok txs out :
  decodeTransactions getDecoded txs = Ok out ->
  length out = length txs /\
  Forall2 (fun raw dec => getDecoded (fst raw) = Ok (fst dec) /\
                           getDecoded (snd raw) = Ok (snd dec)) txs out.
Proof.
  revert out. induction txs as [|[cmd o] txs IH]; intros out H; cbn in H.
  - inversion H. split; [done | constructor].
  - destruct (getDecoded cmd) as [cmd'|] eqn:Hc; [| discriminate].
    destruct (getDecoded o) as [o'|] eqn:Ho; [| discriminate].
    destruct (decodeTransactions getDecoded txs) as [rest|] eqn:Hr; [| discriminate].
    inversion H; subst. destruct (IH _ eq_refl) as [Hl Hf].
    split; [cbn; by rewrite Hl | by constructor].
Qed.

Lemma decodeTransactions_Throw txs e :
  decodeTransactions getDecoded txs = Throw e ->
  exists text,
    text ∈ flat_map (fun tx => [fst tx; snd tx]) txs /\ getDecoded text = Throw e.
Proof.
  induction txs as [|[cmd o] txs IH]; intros H; cbn in H; [discriminate |].
  cbn [flat_map fst snd app].
  destruct (getDecoded cmd) as [cmd'|e1] eqn:Hc.
  2:{ inversion H; subst. exists cmd. split; [apply elem_of_cons; by left | done]. }
  destruct (getDecoded o) as [o'|e2] eqn:Ho.
  2:{ inversion H; subst. exists o. split; [| done].
      apply elem_of_cons; right. apply elem_of_cons; by left. }
  destruct (decodeTransactions getDecoded txs) as [rest|e3] eqn:Hr; [discriminate |].
  inversion H; subst. destruct (IH eq_refl) as (text & Hin & Ht).
  exists text. split; [| done]. do 2 (apply elem_of_cons; right). exact Hin.
Qed.

(** X4.  [processPayload] either decodes every base64 field of the payload
    or throws the error of a field that does not decode.  When it returns,
    the payload has as many transactions as the raw one, each pair decoded
    component by component, and the three hashes are copied unchanged. *)
Theorem processPayload_all_or_error (payload : RawPayload) :
  match processPayload getDecoded payload with
  | Ok decoded =>
      (forall text, text ∈ encodedFields payload -> exists j, getDecoded text = Ok j) /\
      length (pd_transactions decoded) = length (rp_transactions payload) /\
      Forall2 (fun raw dec => getDecoded (fst raw) = Ok (fst dec) /\
                               getDecoded (snd raw) = Ok (snd dec))
              (rp_transactions payload) (pd_transactions decoded) /\
      getDecoded (rp_minerData payload) = Ok (pd_minerData decoded) /\
      getDecoded (rp_coinbase payload) = Ok (pd_coinbase decoded) /\
      pd_transactionsHash decoded = rp_transactionsHash payload /\
      pd_outputsHash decoded = rp_outputsHash payload /\
      pd_payloadHash decoded = rp_payloadHash payload
  | Throw e =>
      exists text, text ∈ encodedFields payload /\ getDecoded text = Throw e
  end.
Proof.
  unfold processPayload, encodedFields.
  destruct (decodeTransactions getDecoded (rp_transactions payload))
    as [txs|e] eqn:Ht.
  2:{ apply decodeTransactions_Throw in Ht as (text & Hin & Hd).
      exists text. split; [apply elem_of_app; by left | done]. }
  destruct (getDecoded (rp_minerData payload)) as [md|e] eqn:Hm.
  2:{ exists (rp_minerData payload). split; [| done].
      apply elem_of_app; right. apply elem_of_cons; by left. }
  destruct (getDecoded (rp_coinbase payload)) as [cb|e] eqn:Hcb.
  2:{ exists (rp_coinbase payload). split; [| done].
      apply elem_of_app; right. apply elem_of_cons; right.
      apply elem_of_cons; by left. }
  apply decodeTransactions_Ok in Ht as [Hl Hf]. cbn.
  split; [| repeat split; done].
  intros text [Hin | Hin]%elem_of_app.
  - clear -Hin Hf. induction Hf as [|[c o] [c' o'] raws decs [Hc Ho] Hf IH];
      cbn in Hin; [by apply elem_of_nil in Hin |].
    apply elem_of_cons in Hin as [-> | Hin]; [by eexists |].
    apply elem_of_cons in Hin as [-> | Hin]; [by eexists | by apply IH].
  - apply elem_of_cons in Hin as [-> | Hin]; [by eexists |].
    apply list_elem_of_singleton in Hin as ->. by eexists.
Qed.

Local Abbreviation handle := (handle JSON_parse getDecoded processPayloadKey).
Local Abbreviation runStream := (runStream JSON_parse getDecoded processPayloadKey).

Lemma runStream_cons ev evs s :
  runStream (ev :: evs) s = runStream evs (handle ev s).
Proof. reflexivity. Qed.

(** One turn of the loop on a message: nothing new, or one new hash and
    one transaction. *)
Lemma handle_BlockHeader_counts data s :
  (length (txHistory (db (st_world (handle (BlockHeader data) s)))) +
   size (blocksAlreadyReceived s) =
   length (txHistory (db (st_world s))) +
   size (blocksAlreadyReceived (handle (BlockHeader data) s)))%nat.
Proof.
  cbn [Streaming.handle]. unfold onBlockHeader.
  destruct (JSON_parse data) as [block|]; [| done].
  destruct (processPayload getDecoded _) as [payload|]; [| done].
  case_bool_decide as Hin; [done |].
  pose proof (saveBlock_one_transaction processPayloadKey (rb_header block) payload
                (st_world s)) as Htx.
  assert (Hsize : size ({[h_hash (rb_header block)]} ∪ blocksAlreadyReceived s)
                  = S (size (blocksAlreadyReceived s))).
  { rewrite size_union by set_solver. by rewrite size_singleton. }
  destruct (saveBlock processPayloadKey (rb_header block) payload (st_world s))
    as [[info|] w1]; cbn in *; rewrite Htx, length_app, Hsize; cbn; lia.
Qed.

(** X5.  Between two firings of the timer the listener opens exactly one
    transaction per hash it adds to the set of received hashes: the
    number of [saveBlock] calls of a stretch of the stream is the number of
    distinct new hashes delivered in it. *)
Theorem one_transaction_per_new_hash (evs : list StreamEvent) (s : StreamState) :
  ClearTimer ∉ evs ->
  (length (txHistory (db (st_world (runStream evs s)))) +
   size (blocksAlreadyReceived s) =
   length (txHistory (db (st_world s))) +
   size (blocksAlreadyReceived (runStream evs s)))%nat /\
  blocksAlreadyReceived s ⊆ blocksAlreadyReceived (runStream evs s).
Proof.
  revert s. induction evs as [|ev evs IH]; intros s Hno; [done |].
  rewrite runStream_cons.
  assert (Hno' : ClearTimer ∉ evs).
  { intros Hin. apply Hno, elem_of_cons. by right. }
  assert (Hev : ev <> ClearTimer).
  { intros ->. apply Hno, elem_of_cons. by left. }
  destruct (IH (handle ev s) Hno') as [Hcount Hsub].
  destruct ev as [data| |]; [| | done].
  - pose proof (handle_BlockHeader_counts data s).
    pose proof (onBlockHeader_received JSON_parse getDecoded processPayloadKey data s).
    split; [lia | by etrans].
  - cbn in *. split; [lia | exact Hsub].
Qed.

(** What one message does to "StreamingErrors" and to the count of
    rolled-back transactions. *)
Lemma handle_errors_rollbacks ev s :
  (forall b p t evs t',
      processPayloadKey b p t = Ok (evs, t') ->
      StreamingErrors t' = StreamingErrors t) ->
  (length (StreamingErrors (committed (db (st_world (handle ev s))))) +
   rolledBack (db (st_world s)) =
   length (StreamingErrors (committed (db (st_world s)))) +
   rolledBack (db (st_world (handle ev s))))%nat.
Proof.
  intros Hkeep. destruct ev as [data| |]; [| done | done].
  cbn [Streaming.handle]. unfold onBlockHeader.
  destruct (JSON_parse data) as [block|]; [| done].
  destruct (processPayload getDecoded _) as [payload|]; [| done].
  case_bool_decide as Hin; [done |].
  unfold saveBlock, saveBlock_try, Block_create.
  destruct (existsb _ _).
  { cbn. unfold rolledBack. cbn. rewrite List.filter_app, !length_app. cbn. lia. }
  destruct (processPayloadKey _ _ _) as [[evs tx2]|e] eqn:Hpk.
  - cbn. rewrite (Hkeep _ _ _ _ _ Hpk). cbn.
    unfold rolledBack. cbn. rewrite List.filter_app, length_app. cbn. lia.
  - cbn. unfold rolledBack. cbn. rewrite List.filter_app, !length_app. cbn. lia.
Qed.

(** X6.  Over any stream, "StreamingErrors" gains exactly one row per
    transaction of [saveBlock] that was rolled back, and none otherwise
    (given that [processPayloadKey] does not write that table). *)
Theorem one_error_row_per_rollback (evs : list StreamEvent) (s : StreamState) :
  (forall b p t evs t',
      processPayloadKey b p t = Ok (evs, t') ->
      StreamingErrors t' = StreamingErrors t) ->
  (length (StreamingErrors (committed (db (st_world (runStream evs s))))) +
   rolledBack (db (st_world s)) =
   length (StreamingErrors (committed (db (st_world s)))) +
   rolledBack (db (st_world (runStream evs s))))%nat.
Proof.
  intros Hkeep. revert s. induction evs as [|ev evs IH]; intros s; [done |].
  rewrite runStream_cons.
  pose proof (IH (handle ev s)). pose proof (handle_errors_rollbacks ev s Hkeep).
  lia.
Qed.

End StreamInvariants.

Section StreamInvariantExamples.

Import Streaming.

Lemma one_transaction_per_new_hash_witness :
  let s := demoStream [BlockHeader "H"; BlockHeader "garbage"; BlockHeader "bad";
                       BlockHeader "H"; ConnectionError "reset"; BlockHeader "bad"]
                      demoStart in
  length (txHistory (db (st_world s))) = size (blocksAlreadyReceived s) /\
  length (txHistory (db (st_world s))) = 2%nat.
Proof.
  intros s.
  destruct (one_transaction_per_new_hash demoParse demoDecoded demoProcessPayloadKey
              [BlockHeader "H"; BlockHeader "garbage"; BlockHeader "bad";
               BlockHeader "H"; ConnectionError "reset"; BlockHeader "bad"]
              demoStart) as [Hcount _].
  { intros Hin.
    repeat (apply elem_of_cons in Hin as [Hin | Hin]; [discriminate |]).
    by apply elem_of_nil in Hin. }
  split; [| vm_compute; reflexivity].
  change (size (blocksAlreadyReceived demoStart)) with 0%nat in Hcount.
  change (length (txHistory (db (st_world demoStart)))) with 0%nat in Hcount.
  fold demoStream in Hcount. fold s in Hcount. lia.
Defined.

Lemma demoProcessPayloadKey_keeps_StreamingErrors b p t evs t' :
  demoProcessPayloadKey b p t = Ok (evs, t') ->
  StreamingErrors t' = StreamingErrors t.
Proof.
  unfold demoProcessPayloadKey.
  destruct (String.eqb (b_hash b) "bad"); [discriminate |].
  intros H; inversion H; reflexivity.
Qed.

Lemma one_error_row_per_rollback_witness :
  let s := demoStream [BlockHeader "H"; ClearTimer; BlockHeader "H";
                       BlockHeader "bad"] demoStart in
  length (StreamingErrors (committed (db (st_world s)))) = rolledBack (db (st_world s)) /\
  rolledBack (db (st_world s)) = 2%nat.
Proof.
  intros s.
  pose proof (one_error_row_per_rollback demoParse demoDecoded demoProcessPayloadKey
                [BlockHeader "H"; ClearTimer; BlockHeader "H"; BlockHeader "bad"]
                demoStart demoProcessPayloadKey_keeps_StreamingErrors) as H.
  split; [| vm_compute; reflexivity].
  change (rolledBack (db (st_world demoStart))) with 0%nat in H.
  change (length (StreamingErrors (committed (db (st_world demoStart)))))
    with 0%nat in H.
  fold demoStream in H. fold s in H. lia.
Defined.

End StreamInvariantExamples.

Section GuardsFacts.

Import GuardsBackfill.

Variable getGuardsFromBalances : list Balance -> Result (list Guard).
Variable bulkCreate_error : list Guard -> Tables -> option string.

Local Abbreviation guardsLoop :=
  (guardsLoop getGuardsFromBalances bulkCreate_error).
Local Abbreviation backfillGuards :=
  (backfillGuards getGuardsFromBalances bulkCreate_error).

Lemma guardsLoop_only_Guards fuel c w ex :
  guardsLoop fuel c w = Some ex ->
  with_Guards (Guards (committed (db (exitWorld ex)))) (committed (db w))
    = committed (db (exitWorld ex)) /\
  bus (exitWorld ex) = bus w.
Proof.
  revert c w ex. induction fuel as [|fuel IH]; intros c w ex Hrun; [discriminate |].
  cbn [GuardsBackfill.guardsLoop] in Hrun. cbn [log db committed] in Hrun.
  set (rows := selectBalances limit c (Balances (committed (db w)))) in *.
  assert (Hid : with_Guards (Guards (committed (db w))) (committed (db w))
                = committed (db w)) by (by destruct (committed (db w))).
  destruct (Nat.eqb (length rows) 0).
  { inversion Hrun; subst ex. cbn. by split. }
  destruct (fetchGuards getGuardsFromBalances rows) as [guards|e].
  2:{ inversion Hrun; subst ex. cbn. by split. }
  unfold Guard_bulkCreate in Hrun.
  destruct (bulkCreate_error guards (committed (db w))) as [e|].
  { inversion Hrun; subst ex. cbn. by split. }
  apply IH in Hrun as [Ht Hb]. cbn in Ht, Hb. split; [| exact Hb].
  rewrite <- Ht. reflexivity.
Qed.

End GuardsFacts.

Section GuardsExtras.

Import GuardsBackfill.

(** X7.  [backfillGuards] writes "Guards" and nothing else: whatever the
    outcome of the run, every other table is as it was, and nothing is
    appended to the Bus. *)
Theorem backfillGuards_only_writes_Guards
  (getGuardsFromBalances : list Balance -> Result (list Guard))
  (bulkCreate_error : list Guard -> Tables -> option string)
  (fuel : nat) (w : World) (ex : GuardsExit) :
  backfillGuards getGuardsFromBalances bulkCreate_error fuel w = Some ex ->
  let before := committed (db w) in
  let after := committed (db (exitWorld ex)) in
  after = with_Guards (Guards after) before /\
  Blocks after = Blocks before /\
  Transactions after = Transactions before /\
  Events after = Events before /\
  Balances after = Balances before /\
  SyncStatuses after = SyncStatuses before /\
  SyncErrors after = SyncErrors before /\
  StreamingErrors after = StreamingErrors before /\
  bus (exitWorld ex) = bus w.
Proof.
  unfold backfillGuards. set (w1 := with_db _ _).
  destruct (guardsLoop getGuardsFromBalances bulkCreate_error fuel 0 w1)
    as [ex1|] eqn:Hloop; [| discriminate].
  apply guardsLoop_only_Guards in Hloop as [Ht Hb].
  intros Hex.
  assert (Hsame : committed (db (exitWorld ex)) = committed (db (exitWorld ex1)) /\
                  bus (exitWorld ex) = bus (exitWorld ex1)).
  { destruct ex1 as [w'|e w']; inversion Hex; subst ex; by split. }
  destruct Hsame as [Hc Hbus]. rewrite Hc, Hbus, Hb, <- Ht. cbn.
  repeat split.
Qed.

Lemma backfillGuards_only_writes_Guards_witness :
  exists ex,
    backfillGuards demoGetGuards demoBulkError 4 (demoGuardsWorld demoBalances)
      = Some ex /\
    Balances (committed (db (exitWorld ex))) = demoBalances /\
    bus (exitWorld ex) = [].
Proof.
  destruct (backfillGuards demoGetGuards demoBulkError 4
              (demoGuardsWorld demoBalances)) as [ex|] eqn:Hrun;
    [| vm_compute in Hrun; discriminate].
  exists ex. split; [reflexivity |].
  destruct (backfillGuards_only_writes_Guards demoGetGuards demoBulkError
              4 (demoGuardsWorld demoBalances) ex Hrun)
    as (_ & _ & _ & _ & Hbal & _ & _ & _ & Hbus).
  split; assumption.
Defined.

(** A batch that is followed by another one is full. *)
Lemma selectBalances_full n c balances r :
  last (selectBalances n c balances) = Some r ->
  selectBalances n (bal_id r) balances <> [] ->
  length (selectBalances n c balances) = n.
Proof.
  intros Hlast Hnext.
  destruct (selectBalances n (bal_id r) balances) as [|y rest] eqn:Hsel; [done |].
  assert (Hy : y ∈ selectBalances n (bal_id r) balances)
    by (rewrite Hsel; apply elem_of_cons; by left).
  apply selectBalances_elem in Hy as [Hry Hyin].
  pose proof (last_Some_elem_of _ _ Hlast) as Hr.
  apply selectBalances_elem in Hr as [Hcr _].
  destruct (decide (n <= length (merge_sort id_le
                         (filter (fun b => (c < bal_id b)%Z) balances)))%nat)
    as [Hle | Hgt].
  { unfold selectBalances. by rewrite length_take_le. }
  exfalso.
  assert (Hin : y ∈ selectBalances n c balances).
  { unfold selectBalances. rewrite take_ge by lia.
    rewrite candidates_perm. apply list_elem_of_filter. split; [lia | done]. }
  pose proof (selectBalances_last_max _ _ _ _ _ Hlast Hin). lia.
Qed.



End GuardsExtras.

Section ArchiveFacts.

Import Archive.

Variable listS3Objects : string -> nat -> option string -> Result (list string).
Variable processKey :
  string -> string -> Tables -> Result (option DispatchInfo * Tables).
Variables (network : string) (chainId : Z) (prefix : string).
Variables (maxKeys : nat) (m : nat).

Local Abbreviation loopBody :=
  (loopBody listS3Objects processKey network prefix maxKeys).
Local Abbreviation while_loop :=
  (while_loop listS3Objects processKey network prefix maxKeys (Some m)).
Local Abbreviation history :=
  (history listS3Objects processKey network prefix maxKeys (Some m)).

(** With a positive [maxIterations] the loop is left after at most that
    many pages. *)
Lemma while_loop_bounded fuel v :
  (0 < m)%nat ->
  (lv_isFinished v = true /\ 1 <= fuel \/ m - lv_iterationCount v < fuel)%nat ->
  exists ex,
    while_loop fuel v = Some ex /\
    (length (history fuel v) <= m - lv_iterationCount v)%nat.
Proof.
  intros Hm. revert v. induction fuel as [|fuel IH]; intros v Hfuel; [lia |].
  cbn [Archive.while_loop Archive.history].
  destruct (loopCondition (Some m) v) eqn:Hcond.
  2:{ eexists. split; [reflexivity | cbn; lia]. }
  unfold loopCondition in Hcond. apply andb_true_iff in Hcond as [Hfin Hit].
  apply negb_true_iff in Hfin.
  assert (Hlt : (lv_iterationCount v < m)%nat).
  { cbn in Hit. destruct (Nat.eqb_spec m 0); [lia |]. cbn in Hit.
    by apply Nat.ltb_lt in Hit. }
  destruct Hfuel as [[Hf _] | Hfuel]; [congruence |].
  destruct (loopBody v) as [v1|e] eqn:Hbody.
  2:{ eexists. split; [reflexivity | cbn; lia]. }
  apply loopBody_Ok in Hbody
    as [(keys & res & _ & _ & _ & Hpage & _ & _ & _ & Hi1 & _) | (_ & Hpage & ->)].
  - destruct (IH v1) as (ex & Hex & Hlen); [right; lia |].
    exists ex. split; [exact Hex |]. rewrite Hpage. cbn. lia.
  - destruct (IH (mkLoopVars (lv_tx v) (lv_world v) (lv_startAfter v) true
                             (lv_iterationCount v) (lv_totalKeysProcessed v)))
      as (ex & Hex & Hlen); [left; cbn; split; [done | lia] |].
    exists ex. split; [exact Hex |]. rewrite Hpage. cbn in *. lia.
Qed.

Lemma keysIn_bound (h : list (list string * list (option DispatchInfo))) :
  Forall (fun page => (length (fst page) <= maxKeys)%nat) h ->
  (keysIn h <= length h * maxKeys)%nat.
Proof.
  unfold keysIn. induction 1 as [|page h Hp _ IH]; cbn; [lia |].
  cbn in IH. lia.
Qed.

End ArchiveFacts.

Section ArchiveExtras.

Import Archive.

(** X9.  With a positive [maxIterations] the run of [processKeys] always
    ends: the loop processes at most [maxIterations] pages, so the number
    returned is at most [maxIterations * maxKeys] when the listing honours
    [maxKeys]. *)
Theorem processKeys_bounded_by_maxIterations
  (listS3Objects : string -> nat -> option string -> Result (list string))
  (processKey : string -> string -> Tables -> Result (option DispatchInfo * Tables))
  (network : string) (chainId : Z) (prefix : string)
  (maxKeys m : nat) (w : World) :
  (0 < m)%nat ->
  (forall startAfter keys,
      listS3Objects prefix maxKeys startAfter = Ok keys ->
      (length keys <= maxKeys)%nat) ->
  exists n w',
    processKeys listS3Objects processKey network chainId prefix maxKeys (Some m)
                (S m) w = Some (n, w') /\
    (length (history listS3Objects processKey network prefix maxKeys (Some m)
                     (S m) (initialVars network chainId prefix w)) <= m)%nat /\
    (n <= m * maxKeys)%nat.
Proof.
  intros Hm Hlist.
  destruct (while_loop_bounded listS3Objects processKey network prefix maxKeys m
              (S m) (initialVars network chainId prefix w) Hm)
    as (ex & Hloop & Hlen); [right; cbn; lia |].
  change (lv_iterationCount (initialVars network chainId prefix w))
    with 0%nat in Hlen.
  destruct (while_loop_history _ _ _ _ _ _ _ _ _ Hloop) as (_ & _ & _ & Htot & _).
  change (lv_totalKeysProcessed (initialVars network chainId prefix w))
    with 0%nat in Htot.
  assert (Hkeys : (keysIn (history listS3Objects processKey network prefix maxKeys
                             (Some m) (S m) (initialVars network chainId prefix w))
                   <= m * maxKeys)%nat).
  { etrans; [apply keysIn_bound |].
    - pose proof (history_pages_listed listS3Objects processKey network prefix
                    maxKeys (Some m) (S m) (initialVars network chainId prefix w))
        as Hp.
      eapply Forall_impl; [exact Hp |].
      intros page (_ & _ & sa & Hsa). by eapply Hlist.
    - apply Nat.mul_le_mono_r. lia. }
  unfold processKeys. rewrite Hloop.
  destruct ex as [v|e v]; eexists _, _; (split; [reflexivity |]);
    cbn [exitVars] in Htot; (split; [lia |]); lia.
Qed.

(** X10.  The number [processKeys] returns is the number of keys of the
    pages its loop completed, whether the run committed or not.  After a
    rollback the committed tables are exactly as before, so the number
    counts keys whose blocks were not persisted. *)
Theorem processKeys_returns_keys_processed
  (listS3Objects : string -> nat -> option string -> Result (list string))
  (processKey : string -> string -> Tables -> Result (option DispatchInfo * Tables))
  (network : string) (chainId : Z) (prefix : string)
  (maxKeys : nat) (maxIterations : option nat)
  (fuel : nat) (w : World) (n : nat) (w' : World) :
  processKeys listS3Objects processKey network chainId prefix
              maxKeys maxIterations fuel w = Some (n, w') ->
  n = keysIn (history listS3Objects processKey network prefix maxKeys
                      maxIterations fuel (initialVars network chainId prefix w)) /\
  (last (txHistory (db w')) = Some RolledBack ->
   committed (db w') = committed (db w)) /\
  length (txHistory (db w')) = S (length (txHistory (db w))).
Proof.
  intros Hrun. split; [| split].
  - apply processKeys_Some in Hrun as (ex & Hloop & Hn & _).
    destruct (while_loop_history _ _ _ _ _ _ _ _ _ Hloop) as (_ & _ & _ & Htot & _).
    rewrite Hn, Htot. reflexivity.
  - intros Hlast.
    by destruct (processKeys_rollback_restores_tables _ _ _ _ _ _ _ _ _ _ _ Hrun Hlast).
  - apply processKeys_Some in Hrun as (ex & Hloop & _ & Hw).
    destruct (while_loop_history _ _ _ _ _ _ _ _ _ Hloop) as (_ & Hdb & _).
    destruct ex as [v|e v]; subst w'; cbn in *; rewrite Hdb, length_app; cbn; lia.
Qed.

End ArchiveExtras.

Section ArchiveExtraExamples.

Import Archive.

Lemma processKeys_bounded_by_maxIterations_witness :
  exists n w',
    demoRun [] 1 (Some 2%nat) 3 emptyWorld = Some (n, w') /\ (n <= 2 * 1)%nat.
Proof.
  destruct (processKeys_bounded_by_maxIterations
              (s3List demoBucket) (demoProcessKey [])
              "mainnet01" 0 "headers/" 1 2 emptyWorld)
    as (n & w' & Hrun & _ & Hn); [lia | |].
  - intros startAfter keys Hk. unfold s3List in Hk. inversion Hk.
    rewrite length_take. lia.
  - exists n, w'. split; [exact Hrun | exact Hn].
Defined.

Lemma processKeys_returns_keys_processed_witness :
  1%nat =
  keysIn (history (s3List demoBucket) (demoProcessKey ["headers/k2"])
                  "mainnet01" "headers/" 1 None 5
                  (initialVars "mainnet01" 0 "headers/" emptyWorld)) /\
  committed (db (mkWorld (mkDatabase emptyTables [RolledBack])
                   [demoInfo "headers/k1"]
                   ["Error processing block headers from storage: invalid payload"]))
    = committed (db emptyWorld).
Proof.
  destruct (processKeys_returns_keys_processed
              (s3List demoBucket) (demoProcessKey ["headers/k2"])
              "mainnet01" 0 "headers/" 1 None 5 emptyWorld 1
              (mkWorld (mkDatabase emptyTables [RolledBack])
                 [demoInfo "headers/k1"]
                 ["Error processing block headers from storage: invalid payload"])
              ltac:(vm_compute; reflexivity)) as (Hn & Hrb & _).
  split; [exact Hn | exact (Hrb eq_refl)].
Defined.

End ArchiveExtraExamples.

(* --------------------------------------------------------------------- *)
(** ** The block repository: batches, bounds and latest blocks            *)

Section SortedTake.

Context {A : Type} (R : relation A) `{!RelDecision R, !Transitive R, !Total R}.

Lemma take_sorted_elem (n : nat) (l : list A) (x : A) :
  x ∈ take n (merge_sort R l) -> x ∈ l.
Proof.
  intros Hx. apply elem_of_take in Hx as (i & Hi & _).
  apply list_elem_of_lookup_2 in Hi.
  by rewrite merge_sort_Permutation in Hi.
Qed.

Lemma take_sorted_sorted (n : nat) (l : list A) :
  StronglySorted R (take n (merge_sort R l)).
Proof.
  pose proof (StronglySorted_merge_sort R l) as Hs.
  rewrite <- (take_drop n (merge_sort R l)) in Hs.
  by apply StronglySorted_app_1_l in Hs.
Qed.

Lemma take_sorted_rest (n : nat) (l : list A) (x : A) :
  x ∈ l -> x ∉ take n (merge_sort R l) ->
  length (take n (merge_sort R l)) = n /\
  forall y, y ∈ take n (merge_sort R l) -> R y x.
Proof.
  intros Hx Hnot.
  pose proof (StronglySorted_merge_sort R l) as Hs.
  rewrite <- (merge_sort_Permutation R l) in Hx.
  rewrite <- (take_drop n (merge_sort R l)) in Hx, Hs.
  apply elem_of_app in Hx as [Hx | Hx]; [done |].
  split.
  - rewrite length_take. apply Nat.min_l.
    destruct (decide (n <= length (merge_sort R l))%nat) as [|Hgt]; [done |].
    rewrite drop_ge in Hx by lia. by apply elem_of_nil in Hx.
  - intros y Hy. eapply StronglySorted_app_1_elem_of; eauto.
Qed.

End SortedTake.

Section BlockRepositoryFacts.

Local Instance height_le_trans : Transitive BlockRepository.height_le.
Proof. unfold BlockRepository.height_le. intros a b c ? ?. lia. Qed.

Local Instance height_le_total : Total BlockRepository.height_le.
Proof. unfold BlockRepository.height_le. intros a b. lia. Qed.

Local Instance height_ge_trans : Transitive BlockRepository.height_ge.
Proof. unfold BlockRepository.height_ge. intros a b c ? ?. lia. Qed.

Local Instance height_ge_total : Total BlockRepository.height_ge.
Proof. unfold BlockRepository.height_ge. intros a b. lia. Qed.

Local Instance id_ge_trans : Transitive BlockRepository.id_ge.
Proof. unfold BlockRepository.id_ge. intros a b c ? ?. lia. Qed.

Local Instance id_ge_total : Total BlockRepository.id_ge.
Proof. unfold BlockRepository.id_ge. intros a b. lia. Qed.

Lemma or_zero_Some (n : Z) : or_zero (Some n) = n.
Proof. unfold or_zero. destruct (Z.eqb_spec n 0); congruence. Qed.

Lemma head_sorted_extreme {A : Type} (R : relation A)
  `{!RelDecision R, !Transitive R, !Total R} (l : list A) (b : A) :
  b ∈ l ->
  exists x, head (merge_sort R l) = Some x /\ x ∈ l /\
            forall y, y ∈ l -> R x y.
Proof.
  intros Hb.
  pose proof (StronglySorted_merge_sort R l) as Hs.
  pose proof (merge_sort_Permutation R l) as Hp.
  destruct (merge_sort R l) as [|x s] eqn:Hm.
  - rewrite <- Hp in Hb. by apply elem_of_nil in Hb.
  - exists x. split; [done |]. split.
    + rewrite <- Hp. apply elem_of_cons. by left.
    + intros y Hy. rewrite <- Hp in Hy.
      apply elem_of_cons in Hy as [-> | Hy].
      * destruct (total R x x); done.
      * apply StronglySorted_inv in Hs as [_ Hall].
        rewrite Forall_forall in Hall. by apply Hall.
Qed.

(** X11.  [getLowestBlockHeight] and [getLastBlockHeight] are the least
    and the greatest height stored: both are heights of stored blocks and
    every stored block lies between them.  On an empty table both are 0,
    the same answer as for a table whose extreme block has height 0. *)
Theorem block_height_bounds (t : Tables) :
  (Blocks t = [] ->
     BlockRepository.getLowestBlockHeight t = 0 /\
     BlockRepository.getLastBlockHeight t = 0) /\
  (Blocks t <> [] ->
     (exists lo, lo ∈ Blocks t /\
                 BlockRepository.getLowestBlockHeight t = b_height lo) /\
     (exists hi, hi ∈ Blocks t /\
                 BlockRepository.getLastBlockHeight t = b_height hi) /\
     forall b, b ∈ Blocks t ->
       BlockRepository.getLowestBlockHeight t <= b_height b
         <= BlockRepository.getLastBlockHeight t).
Proof.
  unfold BlockRepository.getLowestBlockHeight, BlockRepository.getLastBlockHeight.
  split.
  - intros ->. split; reflexivity.
  - intros Hne. destruct (Blocks t) as [|b0 bs] eqn:Hb; [done |].
    assert (b0 ∈ b0 :: bs) as Hin by (apply elem_of_cons; by left).
    destruct (head_sorted_extreme BlockRepository.height_le _ _ Hin)
      as (lo & Hlo & Hloin & Hlomin).
    destruct (head_sorted_extreme BlockRepository.height_ge _ _ Hin)
      as (hi & Hhi & Hhiin & Hhimax).
    rewrite Hlo, Hhi. cbn [fmap option_fmap option_map].
    rewrite !or_zero_Some.
    split; [by exists lo |]. split; [by exists hi |].
    intros b Hbin. split; [apply (Hlomin b Hbin) | apply (Hhimax b Hbin)].
Qed.

Lemma latestFilter_spec (creationTime : Z) (lastBlockId : option Z)
  (chainIds : list Z) (b : Block) :
  BlockRepository.latestFilter creationTime lastBlockId chainIds b = true <->
  creationTime < b_creationTime b /\
  (forall id, lastBlockId = Some id -> id <> 0 -> id < b_id b) /\
  (chainIds <> [] -> b_chainId b ∈ chainIds).
Proof.
  unfold BlockRepository.latestFilter.
  rewrite !andb_true_iff, Z.ltb_lt.
  assert ((match chainIds with
           | [] => true
           | _ => existsb (Z.eqb (b_chainId b)) chainIds
           end = true) <-> (chainIds <> [] -> b_chainId b ∈ chainIds)) as ->.
  { destruct chainIds as [|c cs]; [by split |].
    rewrite existsb_exists. split.
    - intros (x & Hx & Heq) _. apply Z.eqb_eq in Heq as ->.
      by apply list_elem_of_In.
    - intros Hin. exists (b_chainId b). split; [| apply Z.eqb_refl].
      apply list_elem_of_In. by apply Hin. }
  assert ((match lastBlockId with
           | Some id => if Z.eqb id 0 then true else Z.ltb id (b_id b)
           | None => true
           end = true) <->
          (forall id, lastBlockId = Some id -> id <> 0 -> id < b_id b)) as ->.
  { destruct lastBlockId as [id|]; [| by split].
    destruct (Z.eqb_spec id 0) as [-> | Hne].
    - split; [| done]. intros _ id [= <-] Hne. done.
    - rewrite Z.ltb_lt. split.
      + intros Hlt id' [= <-] _. done.
      + intros H'. by apply H'. }
  tauto.
Qed.

(** X12.  [getLatestBlocks] returns at most 100 blocks, newest id first;
    each is stored, was created after [creationTime], has an id above a
    non-zero [lastBlockId] and a chain among a non-empty [chainIds]; a
    stored block that qualifies and is not returned is no newer than any
    returned block, and then the answer is full. *)
Theorem getLatestBlocks_newest (t : Tables) (creationTime : Z)
  (lastBlockId : option Z) (chainIds : list Z) :
  let out := BlockRepository.getLatestBlocks t creationTime lastBlockId chainIds in
  let qualifies b :=
    creationTime < b_creationTime b /\
    (forall id, lastBlockId = Some id -> id <> 0 -> id < b_id b) /\
    (chainIds <> [] -> b_chainId b ∈ chainIds) in
  (length out <= 100)%nat /\
  StronglySorted (fun a b => b_id b <= b_id a) out /\
  (forall b, b ∈ out -> b ∈ Blocks t /\ qualifies b) /\
  (forall b, b ∈ Blocks t -> qualifies b -> b ∉ out ->
     length out = 100%nat /\ forall y, y ∈ out -> b_id b <= b_id y).
Proof.
  intros out qualifies. subst out. unfold BlockRepository.getLatestBlocks.
  split; [rewrite length_take; lia |].
  split; [apply (take_sorted_sorted BlockRepository.id_ge) |].
  split.
  - intros b Hb. apply (take_sorted_elem BlockRepository.id_ge) in Hb.
    apply list_elem_of_In, filter_In in Hb as [Hin Hf].
    split; [by apply list_elem_of_In |]. by apply latestFilter_spec.
  - intros b Hin Hq Hnot.
    apply (take_sorted_rest BlockRepository.id_ge) in Hnot; [done |].
    apply list_elem_of_In, filter_In. split; [by apply list_elem_of_In |].
    by apply latestFilter_spec.
Qed.

End BlockRepositoryFacts.

Section BlockBatchFacts.

Context {BlockOutput : Type}.
Variable validate : Block -> Result BlockOutput.

Lemma NoDup_map_filter {A B : Type} (f : A -> B) (P : A -> bool) (l : list A) :
  NoDup (map f l) -> NoDup (map f (List.filter P l)).
Proof.
  induction l as [|a l IH]; cbn; [done |].
  intros Hnd. apply NoDup_cons in Hnd as [Hnot Hnd].
  destruct (P a); cbn; [| by apply IH].
  apply NoDup_cons. split; [| by apply IH].
  intros Hin. apply Hnot.
  apply list_elem_of_In, in_map_iff in Hin as (x & Hx & Hin).
  apply filter_In in Hin as [Hin _].
  apply list_elem_of_In, in_map_iff. by exists x.
Qed.

Lemma blockMap_fold (rows : list Block) :
  NoDup (map b_hash rows) ->
  (forall b, b ∈ rows -> exists o, validate b = Ok o) ->
  forall m0, exists m,
    fold_left (BlockRepository.blockMapStep validate) rows (Ok m0) = Ok m /\
    (forall b, b ∈ rows -> exists o, validate b = Ok o /\ m !! b_hash b = Some o) /\
    (forall h, h ∉ map b_hash rows -> m !! h = m0 !! h).
Proof.
  induction rows as [|r rs IH]; intros Hnd Hval m0.
  - exists m0. split; [done |]. split; [| done].
    intros b Hb. by apply elem_of_nil in Hb.
  - cbn [map] in Hnd. apply NoDup_cons in Hnd as [Hnot Hnd].
    destruct (Hval r) as [o Ho]; [apply elem_of_cons; by left |].
    destruct (IH Hnd) with (m0 := <[b_hash r := o]> m0) as (m & Hm & Hin & Hout).
    { intros b Hb. apply Hval. apply elem_of_cons. by right. }
    exists m. cbn [fold_left BlockRepository.blockMapStep]. rewrite Ho.
    split; [done |]. split.
    + intros b Hb. apply elem_of_cons in Hb as [-> | Hb]; [| by apply Hin].
      exists o. split; [done |]. rewrite (Hout _ Hnot). apply lookup_insert_eq.
    + intros h Hh. cbn [map] in Hh. apply not_elem_of_cons in Hh as [Hne Hh].
      rewrite (Hout _ Hh). by apply lookup_insert_ne.
Qed.

Lemma blockRows_elem (t : Tables) (hashes : list string) (b : Block) :
  b ∈ List.filter (fun b => existsb (String.eqb (b_hash b)) hashes) (Blocks t) <->
  b ∈ Blocks t /\ b_hash b ∈ hashes.
Proof.
  rewrite list_elem_of_In, filter_In, existsb_exists, <- list_elem_of_In.
  split; intros [Hin Hh]; (split; [done |]).
  - destruct Hh as (x & Hx & Heq). apply String.eqb_eq in Heq as <-.
    by apply list_elem_of_In.
  - exists (b_hash b). split; [by apply list_elem_of_In | apply String.eqb_refl].
Qed.

Lemma Forall2_map_self {A B : Type} (P : A -> B -> Prop) (f : A -> B)
  (l : list A) :
  (forall x, x ∈ l -> P x (f x)) -> Forall2 P l (map f l).
Proof.
  induction l as [|a l IH]; intros HP; cbn; constructor.
  - apply HP. apply elem_of_cons. by left.
  - apply IH. intros x Hx. apply HP. apply elem_of_cons. by right.
Qed.

(** X13.  With block hashes unique in "Blocks" and rows the validator
    accepts, [getBlockByHashes] answers exactly when the requested hashes
    are pairwise different and every one of them is stored; the answer
    then has one block per requested hash, in the order of the request,
    each the validated row of that hash.  A request that repeats a hash,
    or names an unknown one, throws. *)
Theorem getBlockByHashes_aligned (t : Tables) (hashes : list string) :
  NoDup (map b_hash (Blocks t)) ->
  (forall b, b ∈ Blocks t -> exists o, validate b = Ok o) ->
  ((exists out, BlockRepository.getBlockByHashes validate t hashes = Ok out) <->
   NoDup hashes /\
   forall h, h ∈ hashes -> exists b, b ∈ Blocks t /\ b_hash b = h) /\
  (forall out, BlockRepository.getBlockByHashes validate t hashes = Ok out ->
     Forall2 (fun h o => exists b x, b ∈ Blocks t /\ b_hash b = h /\
                                     validate b = Ok x /\ o = Some x)
             hashes out) /\
  ((forall out, BlockRepository.getBlockByHashes validate t hashes <> Ok out) ->
   BlockRepository.getBlockByHashes validate t hashes =
     Throw "There was an issue fetching blocks for transaction IDs.").
Proof.
  intros Huniq Hval. unfold BlockRepository.getBlockByHashes. cbv zeta.
  set (rows := List.filter _ (Blocks t)).
  assert (NoDup (map b_hash rows)) as Hnd by by apply NoDup_map_filter.
  assert (forall b, b ∈ rows -> exists o, validate b = Ok o) as Hval'.
  { intros b Hb. apply blockRows_elem in Hb as [Hb _]. by apply Hval. }
  destruct (blockMap_fold rows Hnd Hval' ∅) as (m & Hm & Hin & Hout).
  rewrite Hm.
  assert (forall h, h ∈ map b_hash rows -> h ∈ hashes) as Hsub.
  { intros h Hh. apply list_elem_of_In, in_map_iff in Hh as (b & <- & Hb).
    apply list_elem_of_In, blockRows_elem in Hb as [_ Hb]. done. }
  assert (length rows = length hashes ->
          NoDup hashes /\
          forall h, h ∈ hashes -> exists b, b ∈ rows /\ b_hash b = h) as Hfwd.
  { intros Hlen.
    assert (map b_hash rows ≡ₚ hashes) as Hp.
    { apply submseteq_length_Permutation; [by apply NoDup_submseteq |].
      rewrite length_map. lia. }
    split; [by rewrite <- Hp |].
    intros h Hh. rewrite <- Hp in Hh.
    apply list_elem_of_In, in_map_iff in Hh as (b & <- & Hb).
    exists b. split; [by apply list_elem_of_In | done]. }
  destruct (Nat.eqb_spec (length rows) (length hashes)) as [Hlen | Hlen];
    cbn [negb].
  - destruct (Hfwd Hlen) as [Hndh Hall]. split; [| split].
    + split; [| by eexists]. intros _. split; [done |].
      intros h Hh. destruct (Hall h Hh) as (b & Hb & Hbh).
      apply blockRows_elem in Hb as [Hb _]. by exists b.
    + intros out [= <-]. apply Forall2_map_self. intros h Hh.
      destruct (Hall h Hh) as (b & Hb & <-).
      destruct (Hin b Hb) as (o & Ho & Hlook).
      exists b, o. apply blockRows_elem in Hb as [Hb _]. done.
    + intros Hno. exfalso. by eapply Hno.
  - split; [| split].
    + split; [by intros [out Hout'] |]. intros [Hndh Hall]. exfalso.
      apply Hlen. rewrite <- (length_map b_hash rows).
      apply Permutation_length, NoDup_Permutation; [done | done |].
      intros h. split; [apply Hsub |]. intros Hh.
      destruct (Hall h Hh) as (b & Hb & <-).
      apply list_elem_of_In, in_map_iff. exists b. split; [done |].
      apply list_elem_of_In, blockRows_elem. done.
    + by intros out.
    + done.
Qed.

End BlockBatchFacts.

Section BlockBatchExamples.

(** X13 over three stored blocks: a request for two of them, in an order
    other than the stored one, is answered in the order of the request; a
    request that repeats a hash throws, and so does one that names a hash
    that is not stored. *)
Lemma getBlockByHashes_aligned_witness :
  NoDup (map b_hash (Blocks demoThreeBlocks)) /\
  BlockRepository.getBlockByHashes demoValidate demoThreeBlocks ["h3"; "h1"]
    = Ok [Some ("h3", 3); Some ("h1", 1)] /\
  Forall2 (fun h o => exists b x, b ∈ Blocks demoThreeBlocks /\ b_hash b = h /\
                                  demoValidate b = Ok x /\ o = Some x)
          ["h3"; "h1"] [Some ("h3", 3); Some ("h1", 1)] /\
  BlockRepository.getBlockByHashes demoValidate demoThreeBlocks ["h1"; "h1"]
    = Throw "There was an issue fetching blocks for transaction IDs." /\
  BlockRepository.getBlockByHashes demoValidate demoThreeBlocks ["h1"; "h9"]
    = Throw "There was an issue fetching blocks for transaction IDs.".
Proof.
  assert (NoDup (map b_hash (Blocks demoThreeBlocks))) as Hnd.
  { apply (bool_decide_unpack _). vm_compute. exact I. }
  assert (forall b, b ∈ Blocks demoThreeBlocks ->
                    exists o, demoValidate b = Ok o) as Hv.
  { intros b _. by eexists. }
  split; [exact Hnd |].
  split; [reflexivity |].
  split.
  { destruct (getBlockByHashes_aligned demoValidate demoThreeBlocks
                ["h3"; "h1"] Hnd Hv) as (_ & Hal & _).
    apply Hal. reflexivity. }
  split.
  - destruct (getBlockByHashes_aligned demoValidate demoThreeBlocks
                ["h1"; "h1"] Hnd Hv) as (Hiff & _ & Hthrow).
    apply Hthrow. intros out Hout.
    destruct (proj1 Hiff (ex_intro _ out Hout)) as [Hdiff _].
    apply NoDup_cons in Hdiff as [Hnot _].
    apply Hnot, elem_of_cons. by left.
  - destruct (getBlockByHashes_aligned demoValidate demoThreeBlocks
                ["h1"; "h9"] Hnd Hv) as (Hiff & _ & Hthrow).
    apply Hthrow. intros out Hout.
    destruct (proj1 Hiff (ex_intro _ out Hout)) as [_ Hall].
    destruct (Hall "h9") as (b & Hb & Hh).
    { apply elem_of_cons. right. apply elem_of_cons. by left. }
    apply list_elem_of_In in Hb. cbn in Hb.
    destruct Hb as [<- | [<- | [<- | []]]]; discriminate Hh.
Defined.

End BlockBatchExamples.

(* --------------------------------------------------------------------- *)
(** ** Pagination argument validation                                     *)

Section PaginationFacts.

Import PaginationPlugin.

Context {Number : Type}.
Variable numberTruthy : Number -> bool.
Variable parseInt10 : string -> Number.
Variable parseFloat : string -> Number.

Local Abbreviation JsVal := (@JsValue Number).

Lemma storeArgument_lookup (m : gmap string JsVal) (a : ArgumentNode)
  (name : string) :
  storeArgument parseInt10 parseFloat m a !! name =
  match (if String.eqb (arg_name a) name
         then literalOf parseInt10 parseFloat (arg_value a) else None) with
  | Some v => Some v
  | None => m !! name
  end.
Proof.
  unfold storeArgument, literalOf.
  destruct (String.eqb_spec (arg_name a) name) as [-> | Hne];
    destruct (arg_value a); try done;
    try apply lookup_insert_eq; by apply lookup_insert_ne.
Qed.

Lemma fold_storeArgument_lookup (args : list ArgumentNode)
  (m : gmap string JsVal) (name : string) :
  fold_left (storeArgument parseInt10 parseFloat) args m !! name =
  match lastLiteral parseInt10 parseFloat name args with
  | Some v => Some v
  | None => m !! name
  end.
Proof.
  revert m. induction args as [|a args IH]; intros m; [done |].
  cbn [fold_left]. rewrite IH, storeArgument_lookup.
  unfold lastLiteral. cbn [omap list_omap].
  destruct (if String.eqb (arg_name a) name then literalOf parseInt10 parseFloat (arg_value a) else None)
    as [v0|]; [| done].
  rewrite last_cons. by destruct (last _).
Qed.

Lemma extractArguments_flat (selections : list SelectionNode)
  (m : gmap string JsVal) :
  extractArguments parseInt10 parseFloat m selections =
  fold_left (storeArgument parseInt10 parseFloat)
    (flat_map (fun node => match node with
                           | Field _ arguments _ => arguments
                           | _ => []
                           end) selections) m.
Proof.
  unfold extractArguments. revert m.
  induction selections as [|s ss IH]; intros m; [done |].
  cbn [fold_left flat_map]. rewrite fold_left_app, IH.
  by destruct s.
Qed.

Lemma inlineArgumentsOf_flat (document : option (list DefinitionNode)) :
  inlineArgumentsOf parseInt10 parseFloat document =
  fold_left (storeArgument parseInt10 parseFloat) (topLevelArguments document) ∅.
Proof.
  destruct document as [defs|]; [| done].
  unfold inlineArgumentsOf, topLevelArguments.
  generalize (∅ : gmap string JsVal).
  induction defs as [|d defs IH]; intros m; [done |].
  cbn [fold_left flat_map]. rewrite fold_left_app, IH.
  destruct d; [by rewrite extractArguments_flat | done].
Qed.

Lemma combinedVariables_lookup (variables : gmap string JsVal)
  (document : option (list DefinitionNode)) (name : string) :
  combinedVariables parseInt10 parseFloat variables document !! name =
  paginationValue parseInt10 parseFloat variables document name.
Proof.
  unfold combinedVariables, paginationValue.
  rewrite lookup_union, inlineArgumentsOf_flat, fold_storeArgument_lookup.
  rewrite lookup_empty.
  destruct (variables !! name), (lastLiteral _ _); done.
Qed.

(** X14.  The hook accepts a request exactly when it does not set both a
    forward parameter ([after] or [first]) and a backward one ([before] or
    [last]).  A parameter is set when its value is truthy, the value being
    the request variable of that name if there is one, even [null], and
    otherwise the last literal of that name among the arguments of the
    top-level fields of all operations. *)
Theorem pagination_direction_rule (variables : gmap string JsVal)
  (document : option (list DefinitionNode)) :
  let set name :=
    truthy numberTruthy (paginationValue parseInt10 parseFloat variables document name) = true in
  didResolveOperation numberTruthy parseInt10 parseFloat variables document
    = Ok tt <->
  ~ ((set "after" \/ set "first") /\ (set "before" \/ set "last")).
Proof.
  intros set. subst set. unfold didResolveOperation. cbv zeta.
  rewrite !combinedVariables_lookup.
  destruct (truthy _ (paginationValue _ _ _ _ "after")),
           (truthy _ (paginationValue _ _ _ _ "before")),
           (truthy _ (paginationValue _ _ _ _ "first")),
           (truthy _ (paginationValue _ _ _ _ "last")); cbn;
    split; try done; try (intros H'; exfalso; apply H'; auto; fail);
    intros _ [[|] [|]]; done.
Qed.

(** X15.  Two documents whose top-level fields carry the same arguments
    get the same verdict: nothing below a top-level field, and nothing in
    a fragment, is ever validated. *)
Theorem pagination_ignores_nested_arguments (variables : gmap string JsVal)
  (document document' : option (list DefinitionNode)) :
  topLevelArguments document = topLevelArguments document' ->
  didResolveOperation numberTruthy parseInt10 parseFloat variables document =
  didResolveOperation numberTruthy parseInt10 parseFloat variables document'.
Proof.
  intros Heq. unfold didResolveOperation, combinedVariables.
  by rewrite !inlineArgumentsOf_flat, Heq.
Qed.

End PaginationFacts.

Section PaginationExamples.

Import PaginationPlugin.

(** X15 at a document whose nested field asks for [first] and [last]:
    it gets the verdict of the document without that field. *)
Lemma pagination_ignores_nested_arguments_witness :
  topLevelArguments demoNestedDocument = topLevelArguments demoFlatDocument /\
  didResolveOperation (fun z => negb (Z.eqb z 0)) demoParseInt demoParseInt
    ∅ demoNestedDocument =
  didResolveOperation (fun z => negb (Z.eqb z 0)) demoParseInt demoParseInt
    ∅ demoFlatDocument.
Proof.
  split; [reflexivity |].
  apply (pagination_ignores_nested_arguments (fun z => negb (Z.eqb z 0))
           demoParseInt demoParseInt ∅ demoNestedDocument demoFlatDocument).
  reflexivity.
Defined.

End PaginationExamples.

(* --------------------------------------------------------------------- *)
(** ** transactionsByBlockId: pages and their continuation                *)

Section KeysetFacts.

Import TransactionsByBlockId.

Variable toBase64 : string -> string.
Variable fromBase64 : string -> string.
Variable pgInteger : string -> option Z.

Local Instance tid_le_trans : Transitive tid_le.
Proof. unfold tid_le. intros a b c ? ?. lia. Qed.

Local Instance tid_le_total : Total tid_le.
Proof. unfold tid_le. intros a b. lia. Qed.

Lemma whereClause_elem (t : Tables) (blockId : Z) (c : option Z)
  (r : Transaction) :
  r ∈ List.filter (whereClause blockId c) (Transactions t) <->
  r ∈ Transactions t /\ t_blockId r = blockId /\
  forall c0, c = Some c0 -> c0 < t_id r.
Proof.
  rewrite list_elem_of_In, filter_In, <- list_elem_of_In.
  unfold whereClause. rewrite andb_true_iff, Z.eqb_eq.
  destruct c as [c0|].
  - rewrite Z.ltb_lt. split.
    + intros (? & ? & ?). split; [done |]. split; [done |]. by intros ? [= <-].
    + intros (? & ? & Hc). split; [done |]. split; [done |]. by apply Hc.
  - split; intros (? & ? & ?); (split; [done |]); by split.
Qed.

Lemma page_rows (S : list Transaction) (limit : Z) :
  0 <= limit + 1 ->
  (if Z.ltb limit (Z.of_nat (length (take (Z.to_nat (limit + 1)) S)))
   then removelast (take (Z.to_nat (limit + 1)) S)
   else take (Z.to_nat (limit + 1)) S) = take (Z.to_nat limit) S.
Proof.
  intros Hlim. destruct (decide (limit = -1)) as [-> | Hne].
  - cbn. done.
  - replace (Z.to_nat (limit + 1)) with (Datatypes.S (Z.to_nat limit)) by lia.
    destruct (Z.ltb_spec limit
                (Z.of_nat (length (take (Datatypes.S (Z.to_nat limit)) S))))
      as [Hlt | Hge].
    + rewrite length_take in Hlt. apply removelast_firstn. lia.
    + rewrite length_take in Hge.
      rewrite !take_ge by lia. done.
Qed.

Lemma page_hasNextPage (S : list Transaction) (limit : Z) :
  0 <= limit ->
  Z.ltb limit (Z.of_nat (length (take (Z.to_nat (limit + 1)) S))) = true <->
  limit < Z.of_nat (length S).
Proof.
  intros Hlim. rewrite Z.ltb_lt, length_take. lia.
Qed.

Lemma transactionsByBlockId_Ok (t : Tables) (blockId : Z) (first : option Z)
  (after : option string) (conn : TransactionConnection) :
  transactionsByBlockId toBase64 fromBase64 pgInteger t blockId first after
    = Ok conn ->
  exists c,
    cursorOf fromBase64 pgInteger after = Ok c /\
    0 <= limitOf first + 1 /\
    let S := merge_sort tid_le
               (List.filter (whereClause blockId c) (Transactions t)) in
    map node (edges conn) = take (Z.to_nat (limitOf first)) S /\
    edges conn = map (fun row => mkEdge row (toBase64 (pretty (t_id row))))
                     (take (Z.to_nat (limitOf first)) S) /\
    hasNextPage conn =
      Z.ltb (limitOf first)
            (Z.of_nat (length (take (Z.to_nat (limitOf first + 1)) S))) /\
    endCursor conn = cursor <$> last (edges conn).
Proof.
  unfold transactionsByBlockId. cbv zeta.
  destruct (cursorOf fromBase64 pgInteger after) as [c|] eqn:Hc; [| done].
  destruct (Z.ltb_spec (limitOf first + 1) 0) as [|Hlim]; [done |].
  cbv zeta. rewrite page_rows by done.
  intros [= <-]. exists c. split; [done |]. split; [done |]. cbn.
  split; [| done]. rewrite map_map. cbn. apply map_id.
Qed.

(** X16.  A page of [transactionsByBlockId] holds at most [first || 10]
    transactions, all of the block asked for and all after the cursor, in
    ascending id order; every edge's cursor is the encoding of its node's
    id and [endCursor] is the cursor of the last edge.  With a limit of at
    least 0, [hasNextPage] holds exactly when more rows match than the
    limit, and a matching row left out has an id at least that of every
    row returned. *)
Theorem transactionsByBlockId_page (t : Tables) (blockId : Z)
  (first : option Z) (after : option string) (conn : TransactionConnection) :
  transactionsByBlockId toBase64 fromBase64 pgInteger t blockId first after
    = Ok conn ->
  let limit := limitOf first in
  let nodes := map node (edges conn) in
  exists c,
    cursorOf fromBase64 pgInteger after = Ok c /\
    (Z.of_nat (length nodes) <= Z.max 0 limit) /\
    StronglySorted (fun a b => t_id a <= t_id b) nodes /\
    (forall r, r ∈ nodes ->
       r ∈ Transactions t /\ t_blockId r = blockId /\
       forall c0, c = Some c0 -> c0 < t_id r) /\
    Forall (fun e => cursor e = toBase64 (pretty (t_id (node e)))) (edges conn) /\
    endCursor conn = cursor <$> last (edges conn) /\
    (0 <= limit ->
       (hasNextPage conn = true <->
        limit < Z.of_nat (length (List.filter (whereClause blockId c)
                                              (Transactions t))))) /\
    (forall r, r ∈ Transactions t -> whereClause blockId c r = true ->
       r ∉ nodes ->
       Z.of_nat (length nodes) = Z.max 0 limit /\
       forall y, y ∈ nodes -> t_id y <= t_id r).
Proof.
  intros Hrun limit nodes. subst nodes limit.
  destruct (transactionsByBlockId_Ok _ _ _ _ _ Hrun)
    as (c & Hc & Hlim & Hnodes & Hedges & Hnext & Hend).
  cbv zeta in *. exists c. rewrite Hnodes.
  split; [done |]. split; [rewrite length_take; lia |].
  split; [apply (take_sorted_sorted tid_le) |]. split.
  { intros r Hr. apply (take_sorted_elem tid_le) in Hr.
    by apply whereClause_elem in Hr. }
  split.
  { rewrite Hedges. apply Forall_forall. intros e He.
    apply list_elem_of_In, in_map_iff in He as (r & <- & _). done. }
  split; [done |]. split.
  { intros Hpos. rewrite Hnext, page_hasNextPage by done.
    by rewrite (Permutation_length (merge_sort_Permutation tid_le _)). }
  intros r Hin Hw Hnot.
  apply (take_sorted_rest tid_le) in Hnot.
  - destruct Hnot as [Hlen Hle]. split; [lia | done].
  - apply list_elem_of_In, filter_In. split; [by apply list_elem_of_In | done].
Qed.

Lemma sorted_last_max {A : Type} (R : relation A) (l : list A) (r x : A) :
  StronglySorted R l -> last l = Some r -> x ∈ l -> x = r \/ R x r.
Proof.
  intros Hs Hlast Hx.
  destruct l as [|a l _] using rev_ind; [done |].
  rewrite last_snoc in Hlast. injection Hlast as ->.
  apply elem_of_app in Hx as [Hx | Hx].
  - right. eapply StronglySorted_app_1_elem_of; [done | done |].
    apply elem_of_cons. by left.
  - left. by apply list_elem_of_singleton in Hx.
Qed.

Lemma NoDup_map_inj {A B : Type} (f : A -> B) (l : list A) (x y : A) :
  NoDup (map f l) -> x ∈ l -> y ∈ l -> f x = f y -> x = y.
Proof.
  induction l as [|a l IH]; intros Hnd Hx Hy Heq.
  - by apply elem_of_nil in Hx.
  - cbn in Hnd. apply NoDup_cons in Hnd as [Hnot Hnd].
    apply elem_of_cons in Hx as [-> | Hx]; apply elem_of_cons in Hy as [-> | Hy].
    + done.
    + exfalso. apply Hnot. rewrite Heq.
      apply list_elem_of_In, in_map, list_elem_of_In. done.
    + exfalso. apply Hnot. rewrite <- Heq.
      apply list_elem_of_In, in_map, list_elem_of_In. done.
    + by apply IH.
Qed.

(** X17.  With transaction ids unique and cursors that decode to the id
    they encode, asking again with [after] set to the [endCursor] of a
    page continues it: the next page exists, all its ids lie above all ids
    of the page, a matching row in neither page lies above both (and then
    the next page is full), and the next page is empty exactly when the
    page said [hasNextPage = false]. *)
Theorem transactionsByBlockId_next_page (t : Tables) (blockId : Z)
  (first : option Z) (after : option string)
  (conn : TransactionConnection) (c1 : string) :
  NoDup (map t_id (Transactions t)) ->
  (forall r, r ∈ Transactions t ->
     toBase64 (pretty (t_id r)) <> EmptyString /\
     pgInteger (fromBase64 (toBase64 (pretty (t_id r)))) = Some (t_id r)) ->
  transactionsByBlockId toBase64 fromBase64 pgInteger t blockId first after
    = Ok conn ->
  endCursor conn = Some c1 ->
  exists conn2 c,
    transactionsByBlockId toBase64 fromBase64 pgInteger t blockId first (Some c1)
      = Ok conn2 /\
    cursorOf fromBase64 pgInteger after = Ok c /\
    (forall x y, x ∈ map node (edges conn) -> y ∈ map node (edges conn2) ->
       t_id x < t_id y) /\
    (forall r, r ∈ Transactions t -> whereClause blockId c r = true ->
       r ∉ map node (edges conn) -> r ∉ map node (edges conn2) ->
       length (edges conn2) = length (edges conn) /\
       forall y, y ∈ map node (edges conn2) -> t_id y < t_id r) /\
    (hasNextPage conn = false -> edges conn2 = []) /\
    (hasNextPage conn = true -> edges conn2 <> []).
Proof.
  intros Huniq Hcodec Hrun Hend.
  destruct (transactionsByBlockId_Ok _ _ _ _ _ Hrun)
    as (c & Hc & Hlim & Hnodes & Hedges & Hnext & Hend').
  cbv zeta in *.
  set (L := Z.to_nat (limitOf first)) in *.
  set (M0 := List.filter (whereClause blockId c) (Transactions t)) in *.
  set (S0 := merge_sort tid_le M0) in *.
  (* the last row of the page *)
  assert (exists r1, last (take L S0) = Some r1 /\
                     c1 = toBase64 (pretty (t_id r1))) as (r1 & Hlast & ->).
  { rewrite Hend', Hedges in Hend.
    destruct (take L S0) as [|a l _] using rev_ind.
    - cbn in Hend. done.
    - rewrite map_app in Hend. cbn [map] in Hend. rewrite last_snoc in Hend.
      cbn in Hend. injection Hend as <-.
      exists a. by rewrite last_snoc. }
  assert (r1 ∈ take L S0) as Hr1page.
  { destruct (take L S0) as [|a l _] using rev_ind; [done |].
    rewrite last_snoc in Hlast. injection Hlast as ->.
    apply elem_of_app. right. by apply list_elem_of_singleton. }
  assert (r1 ∈ Transactions t /\ t_blockId r1 = blockId /\
          forall c0, c = Some c0 -> c0 < t_id r1) as (Hr1T & Hr1b & Hr1c).
  { apply (take_sorted_elem tid_le) in Hr1page. by apply whereClause_elem. }
  destruct (Hcodec r1 Hr1T) as [Hne Hdec].
  assert (cursorOf fromBase64 pgInteger (Some (toBase64 (pretty (t_id r1))))
          = Ok (Some (t_id r1))) as Hc2.
  { unfold cursorOf, truthy_str.
    destruct (String.eqb_spec (toBase64 (pretty (t_id r1))) EmptyString);
      [done |]. cbn. by rewrite Hdec. }
  assert (0 < L)%nat as HL.
  { destruct L; [| lia]. by rewrite take_0 in Hr1page; apply elem_of_nil in Hr1page. }
  (* the second page *)
  assert (exists conn2,
            transactionsByBlockId toBase64 fromBase64 pgInteger t blockId first
              (Some (toBase64 (pretty (t_id r1)))) = Ok conn2) as [conn2 Hrun2].
  { unfold transactionsByBlockId. rewrite Hc2. cbv zeta.
    destruct (Z.ltb_spec (limitOf first + 1) 0); [lia | by eexists]. }
  destruct (transactionsByBlockId_Ok _ _ _ _ _ Hrun2)
    as (c' & Hc' & _ & Hnodes2 & Hedges2 & _ & _).
  rewrite Hc2 in Hc'. injection Hc' as <-. cbv zeta in *.
  fold L in Hnodes2, Hedges2.
  set (M1 := List.filter (whereClause blockId (Some (t_id r1))) (Transactions t)) in *.
  set (S1 := merge_sort tid_le M1) in *.
  assert (forall x, x ∈ take L S0 -> t_id x <= t_id r1) as Hmax.
  { intros x Hx.
    destruct (sorted_last_max tid_le _ r1 x (take_sorted_sorted tid_le L M0)
                Hlast Hx) as [-> | Hle]; [lia | done]. }
  assert (forall y, y ∈ take L S1 -> y ∈ Transactions t /\ t_id r1 < t_id y)
    as Hpage2.
  { intros y Hy. apply (take_sorted_elem tid_le), whereClause_elem in Hy
      as (? & ? & Hlt). split; [done |]. by apply Hlt. }
  assert (forall r, r ∈ Transactions t -> whereClause blockId c r = true ->
            r ∉ take L S0 ->
            length (take L S0) = L /\ r ∈ M1) as Hrest.
  { intros r HrT Hw Hnot.
    assert (r ∈ M0) as HrM0.
    { apply list_elem_of_In, filter_In. split; [by apply list_elem_of_In | done]. }
    destruct (take_sorted_rest tid_le L M0 r HrM0 Hnot) as [Hlen Hle].
    split; [done |].
    apply whereClause_elem in HrM0 as (_ & Hb & _).
    apply whereClause_elem. split; [done |]. split; [done |].
    intros c0 [= <-].
    pose proof (Hle r1 Hr1page) as Hle1. unfold tid_le in Hle1.
    destruct (decide (t_id r1 = t_id r)) as [Heq | Hneq]; [| lia].
    exfalso. apply Hnot.
    by rewrite <- (NoDup_map_inj t_id _ r1 r Huniq Hr1T HrT Heq). }
  exists conn2, c. split; [done |]. split; [done |].
  rewrite Hnodes, Hnodes2. split; [| split; [| split]].
  - intros x y Hx Hy. apply Hmax in Hx. apply Hpage2 in Hy as [_ Hy]. lia.
  - intros r HrT Hw Hnot1 Hnot2.
    destruct (Hrest r HrT Hw Hnot1) as [Hlen1 HrM1].
    destruct (take_sorted_rest tid_le L M1 r HrM1 Hnot2) as [Hlen2 Hle2].
    split.
    + rewrite Hedges, Hedges2, !length_map.
      transitivity L; [exact Hlen2 | symmetry; exact Hlen1].
    + intros y Hy. pose proof (Hle2 y Hy) as Hle. unfold tid_le in Hle.
      destruct (decide (t_id y = t_id r)) as [Heq | Hneq]; [| lia].
      exfalso. apply Hnot2.
      destruct (Hpage2 y Hy) as [HyT _].
      by rewrite <- (NoDup_map_inj t_id _ y r Huniq HyT HrT Heq).
  - intros Hfalse. rewrite Hedges2.
    assert (M1 = []) as HM1.
    { apply elem_of_nil_inv. intros r Hr.
      pose proof Hr as Hr'. apply whereClause_elem in Hr' as (HrT & Hb & Hlt).
      specialize (Hlt _ eq_refl).
      assert (whereClause blockId c r = true) as Hw.
      { unfold whereClause. rewrite andb_true_iff, Z.eqb_eq. split; [done |].
        destruct c as [c0|]; [| done]. apply Z.ltb_lt.
        specialize (Hr1c _ eq_refl). lia. }
      assert (r ∈ S0) as HrS0.
      { unfold S0. rewrite merge_sort_Permutation.
        apply list_elem_of_In, filter_In. split; [by apply list_elem_of_In | done]. }
      rewrite Hfalse in Hnext. symmetry in Hnext.
      apply Z.ltb_ge in Hnext. rewrite length_take in Hnext.
      assert (length S0 <= L)%nat as Hshort by lia.
      rewrite <- (take_ge S0 L Hshort) in HrS0.
      apply Hmax in HrS0. lia. }
    unfold S1. rewrite HM1.
    assert (merge_sort tid_le [] = []) as -> by reflexivity.
    by rewrite take_nil.
  - intros Htrue. rewrite Hedges2. rewrite Htrue in Hnext. symmetry in Hnext.
    apply Z.ltb_lt in Hnext. rewrite length_take in Hnext.
    assert (L < length S0)%nat as Hlong by lia.
    destruct (lookup_lt_is_Some_2 S0 L Hlong) as [r HrL].
    assert (r ∈ S0) as HrS0 by by eapply list_elem_of_lookup_2.
    assert (r ∈ M0) as HrM0 by by (unfold S0 in HrS0; rewrite merge_sort_Permutation in HrS0).
    assert (NoDup S0) as HndS0.
    { unfold S0. rewrite merge_sort_Permutation.
      apply (NoDup_fmap_1 t_id). change (NoDup (map t_id M0)).
      by apply NoDup_map_filter. }
    assert (r ∉ take L S0) as Hnot.
    { rewrite <- (take_drop L S0) in HndS0.
      apply NoDup_app in HndS0 as (_ & Hdisj & _).
      intros Hin. apply (Hdisj r Hin).
      apply list_elem_of_lookup. exists 0%nat. rewrite lookup_drop.
      by rewrite Nat.add_0_r. }
    pose proof HrM0 as HrM0'.
    apply list_elem_of_In, filter_In in HrM0' as [HrT Hw].
    apply list_elem_of_In in HrT.
    destruct (Hrest r HrT Hw Hnot) as [_ HrM1].
    intros Hnil. apply map_eq_nil in Hnil.
    assert (length S1 = 0)%nat as HS1.
    { destruct (decide (length S1 <= L)%nat).
      - rewrite take_ge in Hnil by done. by rewrite Hnil.
      - apply (f_equal length) in Hnil. rewrite length_take in Hnil. cbn in Hnil. lia. }
    unfold S1 in HS1.
    rewrite (Permutation_length (merge_sort_Permutation tid_le M1)) in HS1.
    destruct M1; [by apply elem_of_nil in HrM1 | done].
Qed.

End KeysetFacts.

Section KeysetExamples.

Import TransactionsByBlockId.

(** X16 at the first page of block 7, two rows a page. *)
Lemma transactionsByBlockId_page_witness :
  transactionsByBlockId demoCodec demoCodec demoPgInteger demoTxTables 7
    (Some 2) None = Ok demoPage1 /\
  Z.of_nat (length (map node (edges demoPage1))) <= 2 /\
  (hasNextPage demoPage1 = true <->
   2 < Z.of_nat (length (List.filter (whereClause 7 None)
                                     (Transactions demoTxTables)))).
Proof.
  split; [reflexivity |].
  pose proof (transactionsByBlockId_page demoCodec demoCodec demoPgInteger
                demoTxTables 7 (Some 2) None demoPage1 eq_refl) as Hpage.
  cbv zeta in Hpage.
  destruct Hpage as (c & Hc & Hlen & _ & _ & _ & _ & Hnext & _).
  injection Hc as <-. split; [exact Hlen |]. apply Hnext. done.
Defined.

(** X17 at the same page: asking again with its [endCursor] gives the
    third and last transaction of the block. *)
Lemma transactionsByBlockId_next_page_witness :
  NoDup (map t_id (Transactions demoTxTables)) /\
  endCursor demoPage1 = Some "2" /\
  exists conn2,
    transactionsByBlockId demoCodec demoCodec demoPgInteger demoTxTables 7
      (Some 2) (Some "2") = Ok conn2 /\
    (forall x y, x ∈ map node (edges demoPage1) -> y ∈ map node (edges conn2) ->
       t_id x < t_id y) /\
    edges conn2 <> [].
Proof.
  assert (NoDup (map t_id (Transactions demoTxTables))) as Hnd.
  { apply (bool_decide_unpack _). vm_compute. exact I. }
  split; [exact Hnd |]. split; [reflexivity |].
  assert (forall r, r ∈ Transactions demoTxTables ->
            demoCodec (pretty (t_id r)) <> EmptyString /\
            demoPgInteger (demoCodec (demoCodec (pretty (t_id r))))
              = Some (t_id r)) as Hcodec.
  { intros r Hr. apply list_elem_of_In in Hr. cbn in Hr.
    destruct Hr as [<- | [<- | [<- | [<- | []]]]]; split; done. }
  destruct (transactionsByBlockId_next_page demoCodec demoCodec demoPgInteger
              demoTxTables 7 (Some 2) None demoPage1 "2" Hnd Hcodec
              eq_refl eq_refl)
    as (conn2 & c & Hrun2 & _ & Hord & _ & _ & Hmore).
  exists conn2. split; [exact Hrun2 |]. split; [exact Hord |].
  apply Hmore. reflexivity.
Defined.

End KeysetExamples.

(* --------------------------------------------------------------------- *)
(** ** Qualified event names                                              *)

Section QualifiedNameFacts.

Import QualifiedName.

Lemma split_nonempty (sep : ascii) (s : string) : split sep s <> [].
Proof.
  destruct s as [|c s]; cbn; [done |].
  destruct (Ascii.eqb c sep); [done |]. by destruct (split sep s).
Qed.

Lemma split_app (sep : ascii) (a b : string) :
  split sep (a +:+ String sep b) = split sep a ++ split sep b.
Proof.
  unfold String.app. induction a as [|c a IH]; cbn.
  - by rewrite Ascii.eqb_refl.
  - rewrite IH. destruct (Ascii.eqb c sep); [done |].
    pose proof (split_nonempty sep a). by destruct (split sep a).
Qed.

Lemma split_free (sep : ascii) (s : string) :
  ~ In sep (list_ascii_of_string s) -> split sep s = [s].
Proof.
  induction s as [|c s IH]; cbn; [done |].
  intros Hnot. destruct (Ascii.eqb_spec c sep) as [-> | Hne]; [tauto |].
  rewrite IH; [done | tauto].
Qed.

Lemma split_pieces_free (sep : ascii) (s piece : string) :
  In piece (split sep s) -> ~ In sep (list_ascii_of_string piece).
Proof.
  revert piece. induction s as [|c s IH]; cbn; intros piece Hin.
  - destruct Hin as [<- | []]. cbn. tauto.
  - destruct (Ascii.eqb_spec c sep) as [-> | Hne].
    + destruct Hin as [<- | Hin]; [cbn; tauto | by apply IH].
    + pose proof (split_nonempty sep s).
      destruct (split sep s) as [|h t]; [done |].
      destruct Hin as [<- | Hin].
      * cbn. intros [Heq | Hin]; [done |]. apply (IH h); [by left | done].
      * apply IH. by right.
Qed.

Lemma join_split (sep : ascii) (s : string) :
  join (String sep EmptyString) (split sep s) = s.
Proof.
  induction s as [|c s IH]; cbn; [done |].
  pose proof (split_nonempty sep s) as Hne.
  destruct (Ascii.eqb_spec c sep) as [-> | Hneq].
  - destruct (split sep s) as [|h t]; [done |]. cbn in *. by rewrite IH.
  - destruct (split sep s) as [|h t]; [done |].
    destruct t as [|h' t]; cbn in *; by rewrite <- IH.
Qed.

Lemma string_app_assoc (a b c : string) : (a +:+ b) +:+ c = a +:+ b +:+ c.
Proof.
  unfold String.app. induction a as [|x a IH]; cbn; [done | by rewrite IH].
Qed.

Lemma join_snoc (sep : string) (pieces : list string) (piece : string) :
  pieces <> [] ->
  join sep (pieces ++ [piece]) = join sep pieces +:+ sep +:+ piece.
Proof.
  induction pieces as [|p ps IH]; [done |]. intros _.
  destruct ps as [|p' ps]; [done |].
  change (join sep ((p :: p' :: ps) ++ [piece]))
    with (p +:+ sep +:+ join sep ((p' :: ps) ++ [piece])).
  rewrite IH by done.
  change (join sep (p :: p' :: ps)) with (p +:+ sep +:+ join sep (p' :: ps)).
  by rewrite !string_app_assoc.
Qed.

(** X18.  A module and a dot-free event name joined by a dot, as
    [saveBlock] writes them into a DispatchInfo, are split back by
    [getEventsWithQualifiedName] into that module and that name, whatever
    dots the module holds. *)
Theorem qualified_name_round_trip (module name : string) :
  dotFree name ->
  moduleAndName (module +:+ "." +:+ name) = (module, name).
Proof.
  intros Hfree. unfold moduleAndName.
  change (module +:+ "." +:+ name) with (module +:+ String "." name).
  rewrite split_app, (split_free _ name Hfree).
  rewrite last_snoc, removelast_last. cbn [default].
  by rewrite (join_split "." module).
Qed.

(** X19.  [getEventsWithQualifiedName] cuts any input at its last dot: the
    name it queries for has no dot, and either the input has no dot and is
    taken whole as the name, with the empty string as module, or module,
    dot and name spell the input again. *)
Theorem qualified_name_cut_at_last_dot (q : string) :
  dotFree (snd (moduleAndName q)) /\
  ((dotFree q /\ moduleAndName q = (EmptyString, q)) \/
   fst (moduleAndName q) +:+ "." +:+ snd (moduleAndName q) = q).
Proof.
  unfold moduleAndName.
  pose proof (join_split "." q) as Hjoin.
  pose proof (split_pieces_free "." q) as Hfree.
  pose proof (split_nonempty "." q) as Hne.
  destruct (split "." q) as [|p ps _] using rev_ind; [done |].
  rewrite last_snoc, removelast_last. cbn [default fst snd].
  split.
  { apply Hfree, in_app_iff. right. by left. }
  destruct ps as [|p0 ps].
  - left. cbn in Hjoin. subst p. split; [| done].
    apply Hfree. by left.
  - right. rewrite <- Hjoin. symmetry. by apply join_snoc.
Qed.

End QualifiedNameFacts.

Section QualifiedNameExamples.

Import QualifiedName.

(** X18 at [coin.TRANSFER] and at a namespaced module. *)
Lemma qualified_name_round_trip_witness :
  dotFree "TRANSFER" /\
  moduleAndName ("free.radio02" +:+ "." +:+ "TRANSFER")
    = ("free.radio02", "TRANSFER").
Proof.
  assert (dotFree "TRANSFER") as Hfree.
  { unfold dotFree. cbn. intros Hin.
    repeat (destruct Hin as [Hin | Hin]; [discriminate Hin |]). exact Hin. }
  split; [exact Hfree |].
  apply (qualified_name_round_trip "free.radio02" "TRANSFER" Hfree).
Defined.

End QualifiedNameExamples.
